(** * Background job processing, overdue scanner and cache-aside layer

    A shallow embedding of three services of the task-management backend:

    - [Worker]:  [TaskProcessorService] (the BullMQ job processor and its
      error classifier),
    - [Scanner]: [OverdueTasksService] (the hourly overdue scan and its manual
      trigger),
    - [Cache]:   [RedisCacheService] (get / set / delete / deletePattern /
      getOrSet over an ioredis client),
    - [TasksCache]: the cache keys and the cache invalidation of
      [TasksService] ([clearTaskCaches]),
    - [TasksList]: the page description of [TasksService.findAllWithFilters].

    Asynchronous methods are embedded in their sequential order of effects:
    every [await] of one method completes before its next statement runs.
    State touched by a method (job metrics, the log, the job queue, the Redis
    keyspace, the wall clock) is passed explicitly. *)

From stdpp Require Import gmap strings list fin_maps pretty.
From Stdlib Require Import ZArith String Ascii Lia.
From Stdlib Require QArith Qround.

(** ** JavaScript notions shared by the three services *)

Module Js.

(** What a [throw] carries: an [Error] object (its [name] and [message]) or
    some value that is not an [Error]. *)
Inductive Thrown : Type :=
| ErrorObj (name message : string)
| NonError (shown : string).

(** [new Error(msg)] *)
Definition new_Error (msg : string) : Thrown := ErrorObj "Error" msg.

(** [error instanceof Error ? error.message : 'Unknown error'] *)
Definition message_or_unknown (error : Thrown) : string :=
  match error with
  | ErrorObj _ m => m
  | NonError _ => "Unknown error"
  end.

(** How a call ends: it returns a value or throws. *)
Inductive Completion (A : Type) : Type :=
| Returned (a : A)
| Threw (e : Thrown).
Arguments Returned {A} a.
Arguments Threw {A} e.

(** [s.startsWith(p)] *)
Fixpoint startsWith (s p : string) : bool :=
  match p with
  | EmptyString => true
  | String a p' =>
      match s with
      | EmptyString => false
      | String b s' => Ascii.eqb a b && startsWith s' p'
      end
  end.

(** [s.includes(p)]: [p] occurs in [s] at some position. *)
Fixpoint includes (s p : string) : bool :=
  startsWith s p ||
  match s with
  | EmptyString => false
  | String _ s' => includes s' p
  end.

(** Truthiness of a field holding a string or [undefined]:
    [undefined] and the empty string are falsy. *)
Definition truthy (v : option string) : bool :=
  match v with
  | Some s => negb (String.eqb s EmptyString)
  | None => false
  end.

(** [xs.join(sep)] *)
Fixpoint join (sep : string) (xs : list string) : string :=
  match xs with
  | [] => EmptyString
  | [x] => x
  | x :: rest => x +:+ sep +:+ join sep rest
  end.

(** The wall clock: the value of the [n]-th reading of [Date.now()], in
    milliseconds since the epoch. *)
Definition Clock : Type := nat -> Z.

End Js.

Import Js.

(** ** The task table *)

Module Store.

(** The columns of [Task] that the modelled services read or write.
    [dueDate] is in milliseconds since the epoch. *)
Record Task : Type := mkTask {
  id : string;
  title : string;
  dueDate : Z;
  status : string;
  userId : string
}.

(** The members of the [TaskStatus] enum the services name. *)
Definition PENDING : string := "PENDING".
Definition IN_PROGRESS : string := "IN_PROGRESS".
Definition COMPLETED : string := "COMPLETED".

(** The table and the health of the connection: while [outage] holds a
    message, every query rejects with an [Error] of that message. *)
Record Db : Type := mkDb {
  rows : list Task;
  outage : option string
}.

End Store.

Import Store.

(** ** The job processor: [TaskProcessorService] *)

Module Worker.

(** [job.data]: every field may be absent. *)
Record JobData : Type := mkJobData {
  taskId : option string;
  data_status : option string;
  previousStatus : option string;
  data_title : option string;
  data_dueDate : option string;
  data_userId : option string;
  overdueBy : option string
}.

(** [job.opts]: only [attempts] is read. *)
Record JobOpts : Type := mkJobOpts { attempts : option nat }.

(** A BullMQ [Job] as the processor sees it. *)
Record Job : Type := mkJob {
  job_id : string;
  name : string;
  data : option JobData;
  attemptsMade : nat;
  opts : JobOpts
}.

Record JobContext : Type := mkJobContext {
  jobId : string;
  jobName : string;
  attemptNumber : nat;
  maxAttempts : nat
}.

(** The record returned by [categorizeError]. *)
Record ErrorInfo : Type := mkErrorInfo {
  type : string;
  message : string;
  isRetryable : bool;
  category : string
}.

(** [categorizeError]: four groups of substrings of the message, tested in
    this order; the first group that matches decides. *)
Definition categorizeError (error : Thrown) (jobContext : JobContext) : ErrorInfo :=
  let errorMessage := message_or_unknown error in
  if includes errorMessage "database" ||
     includes errorMessage "connection" ||
     includes errorMessage "timeout" ||
     includes errorMessage "ECONNREFUSED"
  then {| type := "DatabaseError"; message := errorMessage;
          isRetryable := true; category := "infrastructure" |}
  else if includes errorMessage "validation" ||
          includes errorMessage "required" ||
          includes errorMessage "invalid"
  then {| type := "ValidationError"; message := errorMessage;
          isRetryable := false; category := "client" |}
  else if includes errorMessage "not found" ||
          includes errorMessage "does not exist"
  then {| type := "NotFoundError"; message := errorMessage;
          isRetryable := false; category := "client" |}
  else if includes errorMessage "network" ||
          includes errorMessage "ENOTFOUND" ||
          includes errorMessage "ETIMEDOUT"
  then {| type := "NetworkError"; message := errorMessage;
          isRetryable := true; category := "infrastructure" |}
  else {| type := "UnknownError"; message := errorMessage;
          isRetryable := true; category := "unknown" |}.

(** [validateJobData]: the validity flag and the list of complaints. *)
Definition validateJobData (job : Job) : bool * list string :=
  match data job with
  | None => (false, ["Job data is missing"])
  | Some d =>
      let errors :=
        if String.eqb (name job) "task-status-update" then
          (if truthy (taskId d) then [] else ["taskId is required for status update"]) ++
          (if truthy (data_status d) then [] else ["status is required for status update"])
        else if String.eqb (name job) "task-created" then
          (if truthy (taskId d) then [] else ["taskId is required for task creation"])
        else if String.eqb (name job) "overdue-tasks-notification" then
          (if truthy (taskId d) then [] else ["taskId is required for overdue notification"]) ++
          (if truthy (data_title d) then [] else ["title is required for overdue notification"]) ++
          (if truthy (data_dueDate d) then [] else ["dueDate is required for overdue notification"])
        else [] in
      (Nat.eqb (List.length errors) 0, errors)
  end.

(** What a handler returns. *)
Inductive HandlerResult : Type :=
| StatusUpdated (task_id : string) (previous : option string) (newStatus task_title : string)
| CreationProcessed (task_id status : option string)
| OverdueProcessed (task_id overdue_by : option string).

(** The value [process] resolves to. *)
Record ProcessResult : Type := mkProcessResult {
  success : bool;
  result : HandlerResult;
  processingTime : Z;
  timestamp : Z
}.

(** The [jobMetrics] counters. *)
Record JobMetrics : Type := mkJobMetrics {
  processed : nat;
  failed : nat;
  totalProcessingTime : Z
}.

(** The lines [process] writes to the logger around a job. *)
Inductive LogEntry : Type :=
| LogProcessing (ctx : JobContext)
| LogCompleted (job : string) (ms : Z)
| LogFailed (ctx : JobContext) (info : ErrorInfo) (ms : Z)
| LogWillRetry (job : string) (next_attempt : nat)
| LogNonRetryable (job : string)
| LogExhausted (job : string).

(** What the processor reads and writes. *)
Record State : Type := mkState {
  db : Db;
  jobMetrics : JobMetrics;
  logs : list LogEntry;
  reads : nat
}.

Section Processor.

Variable clock : Clock.

Definition Date_now (st : State) : Z * State :=
  (clock (reads st),
   {| db := db st; jobMetrics := jobMetrics st; logs := logs st; reads := S (reads st) |}).

Definition log (e : LogEntry) (st : State) : State :=
  {| db := db st; jobMetrics := jobMetrics st; logs := logs st ++ [e]; reads := reads st |}.

Definition set_db (d : Db) (st : State) : State :=
  {| db := d; jobMetrics := jobMetrics st; logs := logs st; reads := reads st |}.

Definition set_metrics (m : JobMetrics) (st : State) : State :=
  {| db := db st; jobMetrics := m; logs := logs st; reads := reads st |}.

(** [TasksService.updateStatus]: one UPDATE by id, [NotFoundException] when
    no row was affected, then the updated row read back. *)
Definition updateStatus (task_id new_status : string) (d : Db)
  : Completion Task * Db :=
  match outage d with
  | Some msg => (Threw (ErrorObj "QueryFailedError" msg), d)
  | None =>
      let hit (t : Task) := String.eqb (id t) task_id in
      let affected := List.length (filter (fun t => hit t = true) (rows d)) in
      if Nat.eqb affected 0
      then (Threw (ErrorObj "NotFoundException" "Task not found"), d)
      else
        let rows' := map (fun t => if hit t
                                   then mkTask (id t) (title t) (dueDate t) new_status (userId t)
                                   else t) (rows d) in
        match filter (fun t => hit t = true) rows' with
        | t :: _ => (Returned t, mkDb rows' None)
        | [] => (Threw (ErrorObj "TypeError" "Cannot read properties of null"), mkDb rows' None)
        end
  end.

Definition get_or_empty (v : option string) : string :=
  match v with Some s => s | None => EmptyString end.

(** [handleStatusUpdate] *)
Definition handleStatusUpdate (job : Job) (d : JobData) (st : State)
  : Completion HandlerResult * State :=
  if negb (truthy (taskId d)) then (Threw (new_Error "Task ID is required"), st)
  else if negb (truthy (data_status d)) then (Threw (new_Error "Status is required"), st)
  else
    let tid := get_or_empty (taskId d) in
    match updateStatus tid (get_or_empty (data_status d)) (db st) with
    | (Returned task, d') =>
        (Returned (StatusUpdated (id task) (previousStatus d) (status task) (title task)),
         set_db d' st)
    | (Threw error, d') =>
        (Threw (new_Error ("Failed to update task " +:+ tid +:+ " status: "
                           +:+ message_or_unknown error)),
         set_db d' st)
    end.

(** [handleTaskCreated] *)
Definition handleTaskCreated (job : Job) (d : JobData) (st : State)
  : Completion HandlerResult * State :=
  (Returned (CreationProcessed (taskId d) (data_status d)), st).

(** [handleOverdueTasks]: only logs, so its guarded block never throws. *)
Definition handleOverdueTasks (job : Job) (d : JobData) (st : State)
  : Completion HandlerResult * State :=
  (Returned (OverdueProcessed (taskId d) (overdueBy d)), st).

(** The guarded block of [process] up to the handler's completion. *)
Definition dispatch (job : Job) (st : State) : Completion HandlerResult * State :=
  let '(isValid, errors) := validateJobData job in
  if negb isValid
  then (Threw (new_Error ("Job validation failed: " +:+ join ", " errors)), st)
  else
    match data job with
    | None => (Threw (ErrorObj "TypeError" "Cannot destructure job.data"), st)
    | Some d =>
        if String.eqb (name job) "task-status-update" then handleStatusUpdate job d st
        else if String.eqb (name job) "task-created" then handleTaskCreated job d st
        else if String.eqb (name job) "overdue-tasks-notification" then handleOverdueTasks job d st
        else (Threw (new_Error ("Unknown job type: " +:+ name job)), st)
    end.

Definition contextOf (job : Job) : JobContext :=
  {| jobId := job_id job;
     jobName := name job;
     attemptNumber := attemptsMade job + 1;
     maxAttempts := match attempts (opts job) with
                    | Some (S n) => S n
                    | _ => 1
                    end |}.

(** [process] *)
Definition process (job : Job) (st : State) : Completion ProcessResult * State :=
  let '(startTime, st) := Date_now st in
  let jobContext := contextOf job in
  let st := log (LogProcessing jobContext) st in
  match dispatch job st with
  | (Returned r, st) =>
      let '(endTime, st) := Date_now st in
      let processingTime := (endTime - startTime)%Z in
      let m := jobMetrics st in
      let st := set_metrics {| processed := S (processed m);
                               failed := failed m;
                               totalProcessingTime :=
                                 (totalProcessingTime m + processingTime)%Z |} st in
      let st := log (LogCompleted (jobId jobContext) processingTime) st in
      let '(stamp, st) := Date_now st in
      (Returned {| success := true; result := r; processingTime := processingTime;
                   timestamp := stamp |}, st)
  | (Threw error, st) =>
      let '(endTime, st) := Date_now st in
      let processingTime := (endTime - startTime)%Z in
      let m := jobMetrics st in
      let st := set_metrics {| processed := processed m;
                               failed := S (failed m);
                               totalProcessingTime := totalProcessingTime m |} st in
      let errorInfo := categorizeError error jobContext in
      let '(stamp, st) := Date_now st in
      let st := log (LogFailed jobContext errorInfo processingTime) st in
      if isRetryable errorInfo && (attemptNumber jobContext <? maxAttempts jobContext)
      then (Threw error, log (LogWillRetry (jobId jobContext) (attemptNumber jobContext + 1)) st)
      else if negb (isRetryable errorInfo)
      then (Threw error, log (LogNonRetryable (jobId jobContext)) st)
      else (Threw error, log (LogExhausted (jobId jobContext)) st)
  end.

(** The part of the queue runtime that acts on a processor's failure. BullMQ
    is a dependency of the repository, not part of it; its worker retries a
    failed job when [attemptsMade + 1 < opts.attempts] and the thrown error
    is not an [UnrecoverableError], and moves it to the failed set
    otherwise. *)
Definition shouldRetryJob (job : Job) (err : Thrown) : bool :=
  match attempts (opts job) with
  | Some n =>
      (attemptsMade job + 1 <? n) &&
      negb (match err with
            | ErrorObj nm _ => String.eqb nm "UnrecoverableError"
            | NonError _ => false
            end)
  | None => false
  end.

(** The deliveries of one job: the processor runs; after a failure that the
    runtime retries, the job comes back with [attemptsMade] incremented.
    The result lists the completion of every execution, oldest first. *)
Fixpoint deliver (fuel : nat) (job : Job) (st : State)
  : option (list (Completion ProcessResult) * State) :=
  match fuel with
  | O => None
  | S fuel' =>
      match process job st with
      | (Returned r, st') => Some ([Returned r], st')
      | (Threw e, st') =>
          if shouldRetryJob job e
          then
            let job' := mkJob (job_id job) (name job) (data job)
                              (S (attemptsMade job)) (opts job) in
            match deliver fuel' job' st' with
            | Some (rest, st'') => Some (Threw e :: rest, st'')
            | None => None
            end
          else Some ([Threw e], st')
      end
  end.

End Processor.

(** The three implemented job kinds. *)
Definition known_kind (nm : string) : bool :=
  String.eqb nm "task-status-update" ||
  String.eqb nm "task-created" ||
  String.eqb nm "overdue-tasks-notification".

(** The substrings [categorizeError] looks for. *)
Definition infrastructure_signals : list string :=
  ["database"; "connection"; "timeout"; "ECONNREFUSED"].
Definition validation_signals : list string :=
  ["validation"; "required"; "invalid"].
Definition notfound_signals : list string :=
  ["not found"; "does not exist"].
Definition network_signals : list string :=
  ["network"; "ENOTFOUND"; "ETIMEDOUT"].

Definition signals (kws : list string) (msg : string) : bool :=
  existsb (includes msg) kws.

(** The error [process] raises for a job that fails [validateJobData]. *)
Definition validation_error (job : Job) : Thrown :=
  new_Error ("Job validation failed: " +:+ join ", " (snd (validateJobData job))).

Definition initial_state (d : Db) : State :=
  {| db := d; jobMetrics := mkJobMetrics 0 0 0; logs := []; reads := 0 |}.

End Worker.

(** ** The overdue scanner: [OverdueTasksService] *)

Module Scanner.

(** The payload of an overdue notification. *)
Record OverduePayload : Type := mkOverduePayload {
  taskId : string;
  payload_title : string;
  payload_dueDate : Z;
  payload_status : string;
  payload_userId : string;
  overdueBy : string
}.

(** The options [processBatch] passes to [Queue.add]. *)
Record AddOpts : Type := mkAddOpts {
  attempts : nat;
  backoff_type : string;
  backoff_delay : Z;
  priority : nat;
  jobId : string
}.

Record QueuedJob : Type := mkQueuedJob {
  queued_name : string;
  queued_data : OverduePayload;
  queued_opts : AddOpts
}.

(** What a scan leaves behind, in order. *)
Inductive Event : Type :=
| EvFetch (skip take returned : nat)
| EvFetchFailed (skip take : nat)
| EvAdd (job : string) (accepted : bool)
| EvCompleted (found queued : nat)
| EvFailed (message : string).

(** The scanner's surroundings: the jobs held by the queue, the number of
    clock readings and of [Queue.add] calls so far, the events so far, and
    the two counters that the closure installed by [triggerOverdueCheck]
    captures. *)
Record State : Type := mkState {
  queue : list QueuedJob;
  reads : nat;
  adds : nat;
  trace : list Event;
  captured : nat * nat
}.

(** The two private constants of the service. *)
Record Config : Type := mkConfig {
  BATCH_SIZE : nat;
  MAX_RETRIES : nat
}.

Definition defaults : Config := {| BATCH_SIZE := 100; MAX_RETRIES := 3 |}.

(** The rows the scan asks for: due strictly before [now], still pending or
    in progress. *)
Definition is_overdue (now : Z) (t : Task) : bool :=
  (dueDate t <? now)%Z &&
  (String.eqb (status t) PENDING || String.eqb (status t) IN_PROGRESS).

(** [order: { dueDate: 'ASC' }], as a stable insertion sort. *)
Fixpoint insert_by_dueDate (t : Task) (sorted : list Task) : list Task :=
  match sorted with
  | [] => [t]
  | u :: rest =>
      if (dueDate t <=? dueDate u)%Z then t :: u :: rest
      else u :: insert_by_dueDate t rest
  end.

Definition sort_by_dueDate (ts : list Task) : list Task :=
  foldr insert_by_dueDate [] ts.

Definition matching (now : Z) (d : Db) : list Task :=
  sort_by_dueDate (List.filter (is_overdue now) (rows d)).

(** [tasksRepository.find({ where, take, skip, order })] *)
Definition find (now : Z) (take skip : nat) (d : Db) : Completion (list Task) :=
  match outage d with
  | Some msg => Threw (ErrorObj "QueryFailedError" msg)
  | None => Returned (firstn take (skipn skip (matching now d)))
  end.

Section Service.

Variable cfg : Config.
Variable clock : Clock.

(** Whether the [n]-th call of [Queue.add] rejects (the broker is
    unreachable at that moment). *)
Variable add_fails : nat -> bool.

Definition Date_now (st : State) : Z * State :=
  (clock (reads st),
   {| queue := queue st; reads := S (reads st); adds := adds st;
      trace := trace st; captured := captured st |}).

Definition emit (e : Event) (st : State) : State :=
  {| queue := queue st; reads := reads st; adds := adds st;
     trace := trace st ++ [e]; captured := captured st |}.

Definition set_captured (c : nat * nat) (st : State) : State :=
  {| queue := queue st; reads := reads st; adds := adds st;
     trace := trace st; captured := c |}.

(** Modelled from the spec: the queue's enqueue operation, whose code is in
    the BullMQ dependency. A job whose id collides with a job the queue
    still holds is accepted and creates no second job; a call may also
    reject. *)
Definition Queue_add (job : QueuedJob) (st : State) : Completion unit * State :=
  let n := adds st in
  if add_fails n
  then (Threw (new_Error "Connection is closed."),
        {| queue := queue st; reads := reads st; adds := S n;
           trace := trace st ++ [EvAdd (jobId (queued_opts job)) false];
           captured := captured st |})
  else
    let known := existsb (fun j => String.eqb (jobId (queued_opts j))
                                              (jobId (queued_opts job))) (queue st) in
    (Returned tt,
     {| queue := if known then queue st else queue st ++ [job];
        reads := reads st; adds := S n;
        trace := trace st ++ [EvAdd (jobId (queued_opts job)) true];
        captured := captured st |}).

(** [calculateOverdueDuration] *)
Definition calculateOverdueDuration (due : Z) (st : State) : string * State :=
  let '(now, st) := Date_now st in
  let diffMs := (now - due)%Z in
  let diffHours := (diffMs / (1000 * 60 * 60))%Z in
  let diffDays := (diffHours / 24)%Z in
  if (0 <? diffDays)%Z
  then (pretty diffDays +:+ " day" +:+ (if (1 <? diffDays)%Z then "s" else EmptyString), st)
  else (pretty diffHours +:+ " hour" +:+ (if (1 <? diffHours)%Z then "s" else EmptyString), st).

(** The body that [processBatch] maps over the page: build the payload and
    the options, call [Queue.add], count a success, swallow a failure. *)
Definition enqueue_one (task : Task) (acc : nat * list string) (st : State)
  : (nat * list string) * State :=
  let '(queuedCount, failedTasks) := acc in
  let '(by_, st) := calculateOverdueDuration (dueDate task) st in
  let '(stamp, st) := Date_now st in
  let job :=
    {| queued_name := "overdue-tasks-notification";
       queued_data := mkOverduePayload (id task) (title task) (dueDate task)
                                       (status task) (userId task) by_;
       queued_opts := {| attempts := MAX_RETRIES cfg;
                         backoff_type := "exponential";
                         backoff_delay := 5000;
                         priority := 10;
                         jobId := "overdue-" +:+ id task +:+ "-" +:+ pretty stamp |} |} in
  match Queue_add job st with
  | (Returned _, st) => ((S queuedCount, failedTasks), st)
  | (Threw _, st) => ((queuedCount, failedTasks ++ [id task]), st)
  end.

Fixpoint enqueue_all (tasks : list Task) (acc : nat * list string) (st : State)
  : (nat * list string) * State :=
  match tasks with
  | [] => (acc, st)
  | task :: rest =>
      let '(acc, st) := enqueue_one task acc st in
      enqueue_all rest acc st
  end.

(** [processBatch]: the number of jobs the queue accepted. *)
Definition processBatch (overdueTasks : list Task) (st : State) : nat * State :=
  let '((queuedCount, _), st) := enqueue_all overdueTasks (0, []) st in
  (queuedCount, st).

Section Run.

(** The method currently installed as [this.processBatch]. *)
Variable this_processBatch : list Task -> State -> nat * State.

(** The [while (hasMoreTasks)] loop of [checkOverdueTasks]; [fuel] bounds
    the number of iterations, [None] is an exhausted bound. *)
Fixpoint scan_loop (fuel : nat) (d : Db) (now : Z)
    (totalProcessed totalQueued offset : nat) (st : State)
  : option (Completion (nat * nat) * State) :=
  match fuel with
  | O => None
  | S fuel' =>
      match find now (BATCH_SIZE cfg) offset d with
      | Threw e => Some (Threw e, emit (EvFetchFailed offset (BATCH_SIZE cfg)) st)
      | Returned overdueTasks =>
          let st := emit (EvFetch offset (BATCH_SIZE cfg) (List.length overdueTasks)) st in
          if Nat.eqb (List.length overdueTasks) 0
          then Some (Returned (totalProcessed, totalQueued), st)
          else
            let '(queuedCount, st) := this_processBatch overdueTasks st in
            let totalProcessed := totalProcessed + List.length overdueTasks in
            let totalQueued := totalQueued + queuedCount in
            let offset := offset + BATCH_SIZE cfg in
            if List.length overdueTasks <? BATCH_SIZE cfg
            then Some (Returned (totalProcessed, totalQueued), st)
            else scan_loop fuel' d now totalProcessed totalQueued offset st
      end
  end.

(** [checkOverdueTasks]: the loop inside the guarded block; a failure is
    logged and not re-raised. *)
Definition checkOverdueTasks (fuel : nat) (d : Db) (st : State) : option State :=
  let '(startTime, st) := Date_now st in
  let '(now, st) := Date_now st in
  match scan_loop fuel d now 0 0 0 st with
  | None => None
  | Some (Returned (totalProcessed, totalQueued), st) =>
      let '(endTime, st) := Date_now st in
      Some (emit (EvCompleted totalProcessed totalQueued) st)
  | Some (Threw error, st) =>
      let '(stamp, st) := Date_now st in
      Some (emit (EvFailed (message_or_unknown error)) st)
  end.

End Run.

(** The closure that [triggerOverdueCheck] installs as [this.processBatch]:
    it adds the page length and the queued count to the two captured
    counters around a call of the original method. *)
Definition counting_processBatch
    (originalProcessBatch : list Task -> State -> nat * State)
    (tasks : list Task) (st : State) : nat * State :=
  let st := set_captured (fst (captured st) + List.length tasks, snd (captured st)) st in
  let '(queued, st) := originalProcessBatch tasks st in
  let st := set_captured (fst (captured st), snd (captured st) + queued) st in
  (queued, st).

(** [triggerOverdueCheck]: resets the two counters, installs the counting
    closure, runs [checkOverdueTasks] (which goes through the installed
    closure) and returns the counters. Putting the original method back
    afterwards leaves no mark on the state. *)
Definition triggerOverdueCheck (fuel : nat) (d : Db) (st : State)
  : option ((nat * nat) * State) :=
  let st := set_captured (0, 0) st in
  match checkOverdueTasks (counting_processBatch processBatch) fuel d st with
  | None => None
  | Some st => Some (captured st, st)
  end.

End Service.

(** The fetches recorded in a trace: offset and page length, oldest first. *)
Definition fetches (tr : list Event) : list (nat * nat) :=
  flat_map (fun e => match e with
                     | EvFetch skip _ n => [(skip, n)]
                     | EvFetchFailed skip _ => [(skip, 0)]
                     | _ => []
                     end) tr.

(** The calls of [Queue.add] recorded in a trace. *)
Definition add_calls (tr : list Event) : list (string * bool) :=
  flat_map (fun e => match e with
                     | EvAdd j ok => [(j, ok)]
                     | _ => []
                     end) tr.

Definition is_add (e : Event) : bool :=
  match e with EvAdd _ _ => true | _ => false end.

Definition is_accepted_add (e : Event) : bool :=
  match e with EvAdd _ ok => ok | _ => false end.

(** Paging by [B] over [total] matching rows from [offset] on: the offsets
    [offset], [offset + B], ... and the length of the page at each, up to
    and including the first page that is not full. *)
Definition page_plan (B total offset : nat) : list (nat * nat) :=
  map (fun i => (offset + i * B, Nat.min B (total - (offset + i * B))))
      (seq 0 (S ((total - offset) / B))).

(** The rendering of the overdue duration in the words of the interface
    description: days when [floor(diff / 24h) > 0], hours otherwise, the
    unit in the singular exactly when the count is 1. *)
Definition overdueBy_described (now due : Z) : string :=
  let days := ((now - due) / (24 * 60 * 60 * 1000))%Z in
  let hours := ((now - due) / (60 * 60 * 1000))%Z in
  if (0 <? days)%Z
  then pretty days +:+ (if (days =? 1)%Z then " day" else " days")
  else pretty hours +:+ (if (hours =? 1)%Z then " hour" else " hours").

Definition initial_state : State :=
  {| queue := []; reads := 0; adds := 0; trace := []; captured := (0, 0) |}.

End Scanner.

(** ** The cache-aside layer: [RedisCacheService] *)

Module Cache.

(** The values that go through the cache: what [JSON.stringify] and
    [JSON.parse] exchange with text. [JNull] is JavaScript's [null]. *)
#[warning="-register-all"]
Inductive JsValue : Type :=
| JNull
| JBool (b : bool)
| JNum (n : Z)
| JStr (s : string)
| JArr (items : list JsValue)
| JObj (fields : list (string * JsValue)).

(** The runtime's JSON codec. [JSON_parse] gives [None] where
    [JSON.parse] throws a [SyntaxError]; the text ["null"] parses to
    [null]. *)
Class Json : Type := {
  JSON_stringify : JsValue -> string;
  JSON_parse : string -> option JsValue;
  JSON_parse_null : JSON_parse "null" = Some JNull
}.

(** [v !== null] *)
Definition is_null (v : JsValue) : bool :=
  match v with JNull => true | _ => false end.

(** [CacheOptions] *)
Record CacheOptions : Type := mkCacheOptions {
  ttl : option Z;
  namespace : option string
}.

(** The Redis server: each key with its payload and the second at which it
    expires, and the server's clock in seconds. An entry past its expiry is
    no longer there for any command. *)
Record Server : Type := mkServer {
  keyspace : gmap string (string * Z);
  time : Z
}.

(** What the cache service reads and writes: the server, the number of
    commands sent so far and the number of factory calls so far. *)
Record State : Type := mkState {
  server : Server;
  commands : nat;
  computes : nat
}.

Definition live (s : Server) (k : string) : option string :=
  match keyspace s !! k with
  | Some (payload, expiresAt) => if (time s <? expiresAt)%Z then Some payload else None
  | None => None
  end.

(** A bracket class of a glob pattern, read after its opening bracket (and
    after the caret of a negated class): whether [c] is in the class, and
    the pattern that follows the closing bracket. *)
Fixpoint class_scan (p : string) (c : ascii) (matched : bool) : bool * string :=
  match p with
  | EmptyString => (matched, EmptyString)
  | String "\" (String x p') => class_scan p' c (matched || Ascii.eqb x c)
  | String "]" p' => (matched, p')
  | String lo (String "-" (String hi p')) =>
      let a := N.min (N_of_ascii lo) (N_of_ascii hi) in
      let b := N.max (N_of_ascii lo) (N_of_ascii hi) in
      class_scan p' c (matched || (N.leb a (N_of_ascii c) && N.leb (N_of_ascii c) b))
  | String x p' => class_scan p' c (matched || Ascii.eqb x c)
  end.

(** Redis glob matching of a whole key: [*], [?], bracket classes and
    backslash escapes. [fuel] bounds the number of pattern steps. *)
Fixpoint glob_match (fuel : nat) (p s : string) : bool :=
  match fuel with
  | O => false
  | S fuel' =>
      match p with
      | EmptyString => match s with EmptyString => true | _ => false end
      | String "*" p' =>
          (fix try (s : string) : bool :=
             glob_match fuel' p' s ||
             match s with
             | EmptyString => false
             | String _ s' => try s'
             end) s
      | String "?" p' =>
          match s with
          | EmptyString => false
          | String _ s' => glob_match fuel' p' s'
          end
      | String "[" p' =>
          match s with
          | EmptyString => false
          | String c s' =>
              let '(negated, body) :=
                match p' with
                | String "^" body => (true, body)
                | _ => (false, p')
                end in
              let '(matched, rest) := class_scan body c false in
              if xorb negated matched then glob_match fuel' rest s' else false
          end
      | String "\" (String x p') =>
          match s with
          | EmptyString => false
          | String c s' => Ascii.eqb x c && glob_match fuel' p' s'
          end
      | String x p' =>
          match s with
          | EmptyString => false
          | String c s' => Ascii.eqb x c && glob_match fuel' p' s'
          end
      end
  end.

Definition glob (p s : string) : bool := glob_match (S (String.length p)) p s.

Section Service.

Context {json : Json}.

(** [keyPrefix], the option the service gives its ioredis client. *)
Variable keyPrefix : string.

(** Whether the [n]-th command sent to Redis rejects (connection lost,
    retries exhausted). *)
Variable backend_fails : nat -> bool.

Definition defaultTtl : Z := 300.

Definition sent (srv : Server) (st : State) : State :=
  {| server := srv; commands := S (commands st); computes := computes st |}.

(** The ioredis client. It prepends [keyPrefix] to the key arguments of a
    command ([GET], [SETEX], [DEL], [EXISTS]). The argument of [KEYS] is a
    pattern, not a key: it is sent as it is, and the names in the reply
    are the server's full key names. *)

Definition redis_get (k : string) (st : State) : Completion (option string) * State :=
  if backend_fails (commands st)
  then (Threw (new_Error "Connection is closed."), sent (server st) st)
  else (Returned (live (server st) (keyPrefix +:+ k)), sent (server st) st).

Definition redis_setex (k : string) (seconds : Z) (payload : string) (st : State)
  : Completion unit * State :=
  if backend_fails (commands st)
  then (Threw (new_Error "Connection is closed."), sent (server st) st)
  else if (seconds <=? 0)%Z
  then (Threw (ErrorObj "ReplyError" "ERR invalid expire time in 'setex' command"),
        sent (server st) st)
  else
    let srv := server st in
    (Returned tt,
     sent {| keyspace := <[keyPrefix +:+ k := (payload, (time srv + seconds)%Z)]> (keyspace srv);
             time := time srv |} st).

(** [DEL k1 ... kn]: the number of keys that were there. *)
Fixpoint del_keys (ks : list string) (srv : Server) : nat * Server :=
  match ks with
  | [] => (0, srv)
  | k :: rest =>
      let here := match live srv k with Some _ => 1 | None => 0 end in
      let '(n, srv') := del_keys rest {| keyspace := delete k (keyspace srv);
                                         time := time srv |} in
      (here + n, srv')
  end.

Definition redis_del (ks : list string) (st : State) : Completion nat * State :=
  if backend_fails (commands st)
  then (Threw (new_Error "Connection is closed."), sent (server st) st)
  else
    let '(n, srv) := del_keys (map (fun k => keyPrefix +:+ k) ks) (server st) in
    (Returned n, sent srv st).

Definition redis_keys (pattern : string) (st : State) : Completion (list string) * State :=
  if backend_fails (commands st)
  then (Threw (new_Error "Connection is closed."), sent (server st) st)
  else
    let srv := server st in
    (Returned (List.filter (fun k => match live srv k with
                                     | Some _ => glob pattern k
                                     | None => false
                                     end)
                           (map fst (map_to_list (keyspace srv)))),
     sent srv st).

Definition redis_exists (k : string) (st : State) : Completion nat * State :=
  if backend_fails (commands st)
  then (Threw (new_Error "Connection is closed."), sent (server st) st)
  else (Returned (match live (server st) (keyPrefix +:+ k) with Some _ => 1 | None => 0 end),
        sent (server st) st).

(** [buildKey] *)
Definition buildKey (key : string) (ns : option string) : string :=
  if truthy ns
  then match ns with Some n => n +:+ ":" +:+ key | None => key end
  else key.

(** [set]: a failure of the backend is logged and swallowed. *)
Definition set (key : string) (value : JsValue) (options : CacheOptions) (st : State) : State :=
  let finalKey := buildKey key (namespace options) in
  let ttl_ := match ttl options with
              | Some t => if (t =? 0)%Z then defaultTtl else t
              | None => defaultTtl
              end in
  let serializedValue := JSON_stringify value in
  match redis_setex finalKey ttl_ serializedValue st with
  | (Returned _, st) => st
  | (Threw _, st) => st
  end.

(** [get]: [JNull] is the miss; a failure of the backend or of
    [JSON.parse] is logged and answered with the miss. *)
Definition get (key : string) (ns : option string) (st : State) : JsValue * State :=
  let finalKey := buildKey key ns in
  match redis_get finalKey st with
  | (Returned value, st) =>
      if negb (truthy value) then (JNull, st)
      else match JSON_parse (match value with Some v => v | None => EmptyString end) with
           | Some v => (v, st)
           | None => (JNull, st)
           end
  | (Threw _, st) => (JNull, st)
  end.

(** [delete] *)
Definition delete (key : string) (ns : option string) (st : State) : bool * State :=
  let finalKey := buildKey key ns in
  match redis_del [finalKey] st with
  | (Returned result, st) => (0 <? result, st)
  | (Threw _, st) => (false, st)
  end.

(** [deletePattern] *)
Definition deletePattern (pattern : string) (ns : option string) (st : State) : nat * State :=
  let finalPattern := buildKey pattern ns in
  match redis_keys finalPattern st with
  | (Returned keys, st) =>
      if Nat.eqb (List.length keys) 0 then (0, st)
      else match redis_del keys st with
           | (Returned result, st) => (result, st)
           | (Threw _, st) => (0, st)
           end
  | (Threw _, st) => (0, st)
  end.

(** [exists] *)
Definition exists_ (key : string) (ns : option string) (st : State) : bool * State :=
  let finalKey := buildKey key ns in
  match redis_exists finalKey st with
  | (Returned result, st) => (Nat.eqb result 1, st)
  | (Threw _, st) => (false, st)
  end.

(** A factory passed to [getOrSet]: the completion of its [n]-th call. *)
Definition Factory : Type := nat -> Completion JsValue.

Definition call (factory : Factory) (st : State) : Completion JsValue * State :=
  (factory (computes st),
   {| server := server st; commands := commands st; computes := S (computes st) |}).

(** [getOrSet] *)
Definition getOrSet (key : string) (factory : Factory) (options : CacheOptions) (st : State)
  : Completion JsValue * State :=
  let '(cached, st) := get key (namespace options) st in
  if negb (is_null cached) then (Returned cached, st)
  else
    match call factory st with
    | (Threw e, st) => (Threw e, st)
    | (Returned value, st) =>
        let st := set key value options st in
        (Returned value, st)
    end.

End Service.

(** The time to live that [set] asks for: [options.ttl || defaultTtl]. *)
Definition effective_ttl (options : CacheOptions) : Z :=
  match ttl options with
  | Some t => if (t =? 0)%Z then defaultTtl else t
  | None => defaultTtl
  end.

(** The prefix the service configures in [onModuleInit]. *)
Definition service_keyPrefix : string := "cache:".

Definition empty_state : State :=
  {| server := {| keyspace := ∅; time := 0 |}; commands := 0; computes := 0 |}.

(** The passage of [seconds] on the server's clock. *)
Definition elapse (seconds : Z) (st : State) : State :=
  {| server := {| keyspace := keyspace (server st); time := (time (server st) + seconds)%Z |};
     commands := commands st; computes := computes st |}.

End Cache.

(** ** A JSON codec for the examples

    Compact JSON text as [JSON.stringify] writes it, without white space,
    with integers for numbers and the two escapes of the quote and the
    backslash in strings. It is a codec for the sample payloads only, on
    which it writes and reads what the runtime does; the properties of the
    cache are stated for every codec of the class [Json]. Outside the
    samples it is narrower than the runtime: [parse] takes no white space,
    fractions or exponents, [escape] leaves control characters as they
    are, and integers are kept exact beyond 2^53. *)

Module CompactJson.

Import Cache.

(** The double quote character. *)
Definition dquote : ascii := ascii_of_nat 34.

Fixpoint escape (s : string) : string :=
  match s with
  | EmptyString => EmptyString
  | String c s' =>
      if Ascii.eqb c dquote || Ascii.eqb c "\"
      then String "\" (String c (escape s'))
      else String c (escape s')
  end.

Definition quote (s : string) : string :=
  String dquote (escape s +:+ String dquote EmptyString).

Fixpoint stringify (v : JsValue) : string :=
  match v with
  | JNull => "null"
  | JBool true => "true"
  | JBool false => "false"
  | JNum n => pretty n
  | JStr s => quote s
  | JArr items => "[" +:+ join "," (map stringify items) +:+ "]"
  | JObj fields =>
      "{" +:+ join "," (map (fun kv => quote (fst kv) +:+ ":" +:+ stringify (snd kv)) fields)
          +:+ "}"
  end.

Fixpoint drop_chars (n : nat) (s : string) : string :=
  match n, s with
  | S n', String _ s' => drop_chars n' s'
  | _, _ => s
  end.

(** The characters of a string literal after its opening quote, up to the
    closing quote, and what follows. *)
Fixpoint parse_string_body (s : string) : option (string * string) :=
  match s with
  | EmptyString => None
  | String "\" (String c rest) =>
      if Ascii.eqb c dquote || Ascii.eqb c "\"
      then match parse_string_body rest with
           | Some (str, rest1) => Some (String c str, rest1)
           | None => None
           end
      else None
  | String c rest =>
      if Ascii.eqb c dquote then Some (EmptyString, rest)
      else match parse_string_body rest with
           | Some (str, rest1) => Some (String c str, rest1)
           | None => None
           end
  end.

Definition digit_of (c : ascii) : option Z :=
  let n := N_of_ascii c in
  if (N.leb 48 n && N.leb n 57)%bool then Some (Z.of_N n - 48)%Z else None.

(** A non-empty run of digits read into [acc], and what follows. *)
Fixpoint parse_digits (s : string) (acc : Z) (seen : bool) : option (Z * string) :=
  match s with
  | EmptyString => if seen then Some (acc, EmptyString) else None
  | String c rest =>
      match digit_of c with
      | Some dgt => parse_digits rest (acc * 10 + dgt)%Z true
      | None => if seen then Some (acc, s) else None
      end
  end.

(** A zero followed by a digit: no JSON number starts so. *)
Definition leading_zero (s : string) : bool :=
  match s with
  | String "0" (String c _) => match digit_of c with Some _ => true | None => false end
  | _ => false
  end.

Definition parse_number (s : string) : option (JsValue * string) :=
  match s with
  | String "-" rest =>
      if leading_zero rest then None
      else match parse_digits rest 0 false with
           | Some (n, rest1) => Some (JNum (- n), rest1)
           | None => None
           end
  | _ =>
      if leading_zero s then None
      else match parse_digits s 0 false with
           | Some (n, rest1) => Some (JNum n, rest1)
           | None => None
           end
  end.

(** One value at the head of the text, and what follows; [fuel] bounds the
    nesting and the number of items. *)
Fixpoint parse_value (fuel : nat) (s : string) : option (JsValue * string) :=
  match fuel with
  | O => None
  | S fuel' =>
      if startsWith s "null" then Some (JNull, drop_chars 4 s)
      else if startsWith s "true" then Some (JBool true, drop_chars 4 s)
      else if startsWith s "false" then Some (JBool false, drop_chars 5 s)
      else
        match s with
        | EmptyString => None
        | String "[" (String "]" rest) => Some (JArr [], rest)
        | String "[" rest =>
            match parse_items fuel' rest with
            | Some (items, rest1) => Some (JArr items, rest1)
            | None => None
            end
        | String "{" (String "}" rest) => Some (JObj [], rest)
        | String "{" rest =>
            match parse_fields fuel' rest with
            | Some (fields, rest1) => Some (JObj fields, rest1)
            | None => None
            end
        | String c rest =>
            if Ascii.eqb c dquote
            then match parse_string_body rest with
                 | Some (str, rest1) => Some (JStr str, rest1)
                 | None => None
                 end
            else parse_number s
        end
  end
with parse_items (fuel : nat) (s : string) : option (list JsValue * string) :=
  match fuel with
  | O => None
  | S fuel' =>
      match parse_value fuel' s with
      | Some (v, String "," rest) =>
          match parse_items fuel' rest with
          | Some (vs, rest1) => Some (v :: vs, rest1)
          | None => None
          end
      | Some (v, String "]" rest) => Some ([v], rest)
      | _ => None
      end
  end
with parse_fields (fuel : nat) (s : string) : option (list (string * JsValue) * string) :=
  match fuel with
  | O => None
  | S fuel' =>
      match s with
      | EmptyString => None
      | String c rest =>
          if Ascii.eqb c dquote
          then match parse_string_body rest with
               | Some (k, String ":" rest1) =>
                   match parse_value fuel' rest1 with
                   | Some (v, String "," rest2) =>
                       match parse_fields fuel' rest2 with
                       | Some (kvs, rest3) => Some ((k, v) :: kvs, rest3)
                       | None => None
                       end
                   | Some (v, String "}" rest2) => Some ([(k, v)], rest2)
                   | _ => None
                   end
               | _ => None
               end
          else None
      end
  end.

(** The whole text must be one value. *)
Definition parse (s : string) : option JsValue :=
  match parse_value (S (String.length s)) s with
  | Some (v, EmptyString) => Some v
  | _ => None
  end.

#[export] Instance compact_json : Json :=
  {| JSON_stringify := stringify;
     JSON_parse := parse;
     JSON_parse_null := eq_refl |}.

End CompactJson.

(** ** Cache invalidation of the task service: [TasksService.clearTaskCaches] *)

Module TasksCache.

Import Js Cache.

(** A call of the cache service whose promise [clearTaskCaches] collects. *)
Inductive CacheCall : Type :=
| CallDelete (key : string) (ns : option string)
| CallDeletePattern (pattern : string) (ns : option string).

(** A value in a template literal: [undefined] prints as its name. *)
Definition template (v : option string) : string :=
  match v with Some s => s | None => "undefined" end.

(** The double quote inside the pattern of the user's list entries. *)
Definition dq : string := String (ascii_of_nat 34) EmptyString.

(** [userRole === 'admin'] *)
Definition is_admin (userRole : option string) : bool :=
  match userRole with Some r => String.eqb r "admin" | None => false end.

(** The key under which [findOne] caches a task. *)
Definition findOne_cacheKey (id : string) (userId userRole : option string) : string :=
  if is_admin userRole
  then "task:" +:+ id +:+ ":admin"
  else "task:" +:+ id +:+ ":user:" +:+ template userId.

(** The key under which [getTaskStatistics] caches its counts. *)
Definition getTaskStatistics_cacheKey (userId userRole : option string) : string :=
  if is_admin userRole then "stats:global" else "stats:user:" +:+ template userId.

(** [cachePromises]: the calls [clearTaskCaches] makes, in the order in
    which it makes them. *)
Definition cachePromises (specificUserId specificTaskId : option string) : list CacheCall :=
  let ns := Some "tasks" in
  (if truthy specificTaskId
   then
     [CallDelete ("task:" +:+ template specificTaskId +:+ ":admin") ns] ++
     (if truthy specificUserId
      then [CallDelete ("task:" +:+ template specificTaskId +:+ ":user:"
                        +:+ template specificUserId) ns]
      else []) ++
     [CallDeletePattern ("task:" +:+ template specificTaskId +:+ ":*") ns]
   else
     [CallDeletePattern "task:*" ns]) ++
  [CallDeletePattern "list:*" ns] ++
  (if truthy specificUserId
   then [CallDeletePattern ("list:*" +:+ dq +:+ "userId" +:+ dq +:+ ":" +:+ dq
                            +:+ template specificUserId +:+ dq +:+ "*") ns]
   else []) ++
  (if truthy specificUserId
   then [CallDelete ("stats:user:" +:+ template specificUserId) ns]
   else []) ++
  [CallDelete "stats:global" ns] ++
  [CallDeletePattern "stats:*" ns].

Section Service.

Variable keyPrefix : string.
Variable backend_fails : nat -> bool.

(** The calls are made one after the other without waiting, and awaited
    together by [Promise.all]. Each call runs up to its first command when
    it is made, and the client sends the commands in the order in which
    they are issued: a [delete] is its one [DEL]; a [deletePattern] sends
    its [KEYS] and goes on, once the replies arrive, with the [DEL] of the
    keys it was given, if any. *)
Definition issue (c : CacheCall) (st : State) : option (list string) * State :=
  match c with
  | CallDelete key ns => (None, snd (Cache.delete keyPrefix backend_fails key ns st))
  | CallDeletePattern pattern ns =>
      match redis_keys backend_fails (buildKey pattern ns) st with
      | (Returned keys, st) =>
          (if Nat.eqb (List.length keys) 0 then None else Some keys, st)
      | (Threw _, st) => (None, st)
      end
  end.

Fixpoint issue_all (cs : list CacheCall) (st : State) : list (list string) * State :=
  match cs with
  | [] => ([], st)
  | c :: rest =>
      let '(pending, st) := issue c st in
      let '(more, st) := issue_all rest st in
      (match pending with Some keys => keys :: more | None => more end, st)
  end.

(** The second halves of the [deletePattern] calls, in the order of the
    replies. *)
Fixpoint settle (pending : list (list string)) (st : State) : State :=
  match pending with
  | [] => st
  | keys :: rest => settle rest (snd (redis_del keyPrefix backend_fails keys st))
  end.

(** [clearTaskCaches]: the results of the calls are not used, and the
    cache service raises nothing. *)
Definition clearTaskCaches (specificUserId specificTaskId : option string) (st : State) : State :=
  let '(pending, st) := issue_all (cachePromises specificUserId specificTaskId) st in
  settle pending st.

End Service.

(** Every key of the server carries the client's prefix: the server is
    written through this client only. *)
Definition written_by (keyPrefix : string) (srv : Server) : Prop :=
  forall k, is_Some (keyspace srv !! k) -> startsWith k keyPrefix = true.

(** From [srv] to [srv'] keys were only taken away, and no time passed. *)
Definition shrinks (srv srv' : Server) : Prop :=
  time srv' = time srv /\
  forall k, keyspace srv' !! k = None \/ keyspace srv' !! k = keyspace srv !! k.

(** The calls whose patterns are all in the namespace of the tasks. *)
Definition patterns_in_tasks (cs : list CacheCall) : Prop :=
  forall pattern ns, In (CallDeletePattern pattern ns) cs -> ns = Some "tasks".

End TasksCache.

(** ** The pages of the task list: [TasksService.findAllWithFilters] *)

Module TasksList.

(** The page description that [findAllWithFilters] returns with the rows.
    Its numbers hold integers, in the range in which the arithmetic of
    JavaScript numbers is exact. *)
Record PageInfo : Type := mkPageInfo {
  total : Z;
  page : Z;
  limit : Z;
  totalPages : Z;
  hasNext : bool;
  hasPrev : bool
}.

(** [Math.ceil(a / b)]: the quotient is a fraction, not an integer
    division. (For [b = 0] JavaScript gives an infinity or [NaN]; the
    properties below are about [b > 0].) *)
Definition Math_ceil_div (a b : Z) : Z :=
  Qround.Qceiling (QArith_base.Qdiv (QArith_base.inject_Z a) (QArith_base.inject_Z b)).

(** [offset], the number of rows the query skips. *)
Definition offset (page limit : Z) : Z := ((page - 1) * limit)%Z.

Definition page_info (total page limit : Z) : PageInfo :=
  let totalPages := Math_ceil_div total limit in
  let hasNext := (page <? totalPages)%Z in
  let hasPrev := (1 <? page)%Z in
  mkPageInfo total page limit totalPages hasNext hasPrev.

End TasksList.

(** ** Concrete inputs used by the examples *)

Module Samples.

Import Worker Cache CompactJson.

(** A clock that advances one millisecond per reading. *)
Definition sample_clock : Clock := fun n => (1700000000000 + Z.of_nat n)%Z.

Definition empty_db : Db := mkDb [] None.

(** A status update without [taskId], enqueued with three attempts. *)
Definition invalid_status_job : Job :=
  mkJob "41" "task-status-update"
        (Some (mkJobData None (Some "COMPLETED") None None None None None))
        0 (mkJobOpts (Some 3)).

(** A job of a kind the processor does not implement. *)
Definition unknown_kind_job : Job :=
  mkJob "42" "send-email"
        (Some (mkJobData (Some "t-1") None None None None None None))
        0 (mkJobOpts (Some 3)).

(** A queue that accepts every job. *)
Definition never_fails : nat -> bool := fun _ => false.

(** One pending task, due some hours before the sample clock starts. *)
Definition report_task : Task :=
  mkTask "t-1" "Write report" 1699990000000 PENDING "u-1".

Definition overdue_db : Db := mkDb [report_task] None.

(** 150 pending tasks, all due before the sample clock starts. *)
Definition backlog : list Task :=
  map (fun i => mkTask ("t-" +:+ pretty i) "Backlog item"
                       (1699990000000 + Z.of_nat i)%Z PENDING "u-1")
      (seq 0 150).

Definition backlog_db : Db := mkDb backlog None.

(** The options of the task-list cache: three minutes, namespace "tasks". *)
Definition list_options : CacheOptions := mkCacheOptions (Some 180%Z) (Some "tasks").

(** A cached page of tasks. *)
Definition task_page : JsValue :=
  JObj [("data", JArr [JObj [("id", JStr "t-1"); ("status", JStr "PENDING")]]);
        ("total", JNum 1)].

(** A factory that returns the page at every call. *)
Definition page_factory : Factory := fun _ => Returned task_page.

(** A factory whose value is [null] at every call. *)
Definition null_factory : Factory := fun _ => Returned JNull.

(** The cache after the task-list entry "list:all" was written. *)
Definition cache_with_list : Cache.State :=
  Cache.set service_keyPrefix never_fails "list:all" task_page list_options empty_state.

End Samples.

(** ** Quantities in which the further properties are stated *)

Module Views.

(** The rows after [UPDATE ... SET status WHERE id]. *)
Definition with_status (tid new_status : string) (ts : list Task) : list Task :=
  map (fun t => if String.eqb (id t) tid
                then mkTask (id t) (title t) (dueDate t) new_status (userId t)
                else t) ts.

(** The number of calls, among [n] calls of [Queue.add] from the [k]-th
    on, that the queue accepts. *)
Definition accepted_among (add_fails : nat -> bool) (k n : nat) : nat :=
  List.length (List.filter (fun i => negb (add_fails i)) (seq k n)).

(** [j] is the job that [processBatch] builds for the row [t], up to the
    rendering of the delay and the job id, which depend on the clock. *)
Definition notification_of (cfg : Scanner.Config) (t : Task) (j : Scanner.QueuedJob) : Prop :=
  Scanner.queued_name j = "overdue-tasks-notification" /\
  Scanner.taskId (Scanner.queued_data j) = id t /\
  Scanner.payload_title (Scanner.queued_data j) = title t /\
  Scanner.payload_dueDate (Scanner.queued_data j) = dueDate t /\
  Scanner.payload_status (Scanner.queued_data j) = status t /\
  Scanner.payload_userId (Scanner.queued_data j) = userId t /\
  Scanner.attempts (Scanner.queued_opts j) = Scanner.MAX_RETRIES cfg /\
  Scanner.priority (Scanner.queued_opts j) = 10 /\
  Scanner.backoff_type (Scanner.queued_opts j) = "exponential" /\
  Scanner.backoff_delay (Scanner.queued_opts j) = 5000%Z.

(** The ids of the jobs of a queue, in order. *)
Definition job_ids (q : list Scanner.QueuedJob) : list string :=
  map (fun j => Scanner.jobId (Scanner.queued_opts j)) q.

(** The job ids that [processBatch] builds for [tasks] when the clock has
    been read [r] times: each task reads the clock twice, for the delay
    and then for the id. *)
Fixpoint planned_ids (clock : Clock) (r : nat) (tasks : list Task) : list string :=
  match tasks with
  | [] => []
  | t :: rest =>
      ("overdue-" +:+ id t +:+ "-" +:+ pretty (clock (S r)))
        :: planned_ids clock (S (S r)) rest
  end.

(** The queue [q'] is the queue [q] after the accepted enqueues of the jobs
    [built], of which the jobs [new] were added: [q'] is [q] followed by
    [new], the id of every job of [built] is held by [q'], and [new] is
    all of [built] when no id of [built] occurs twice or is held by [q]. *)
Definition grown (q built new q' : list Scanner.QueuedJob) : Prop :=
  q' = q ++ new /\
  (forall j, In j new -> In j built) /\
  (forall j, In j built -> In (Scanner.jobId (Scanner.queued_opts j)) (job_ids q')) /\
  (NoDup (job_ids q ++ job_ids built) -> new = built).

End Views.

(** ** Further concrete inputs *)

Module Scenarios.

Import Cache CompactJson Samples.

(** A creation notification for the sample task. *)
Definition created_job : Worker.Job :=
  Worker.mkJob "43" "task-created"
    (Some (Worker.mkJobData (Some "t-1") (Some "PENDING") None None None None None))
    0 (Worker.mkJobOpts (Some 3)).

(** A status update that completes the sample task. *)
Definition completion_job : Worker.Job :=
  Worker.mkJob "44" "task-status-update"
    (Some (Worker.mkJobData (Some "t-1") (Some "COMPLETED") (Some "PENDING")
                            None None None None))
    0 (Worker.mkJobOpts (Some 3)).

(** A status update for a task that is in no row. *)
Definition stale_job : Worker.Job :=
  Worker.mkJob "45" "task-status-update"
    (Some (Worker.mkJobData (Some "t-9") (Some "COMPLETED") None None None None None))
    0 (Worker.mkJobOpts (Some 3)).

(** The table while its connection is lost. *)
Definition db_down : Db := mkDb [report_task] (Some "connection terminated unexpectedly").

(** A queue that rejects every third call. *)
Definition every_third_fails : nat -> bool := fun n => Nat.eqb (n mod 3) 2.

(** A backend that rejects every command. *)
Definition always_fails : nat -> bool := fun _ => true.

(** The options of the single-task cache: five minutes, namespace "tasks". *)
Definition task_options : CacheOptions := mkCacheOptions (Some 300%Z) (Some "tasks").

(** Options without a time to live. *)
Definition plain_options : CacheOptions := mkCacheOptions None (Some "tasks").

(** A cached task. *)
Definition cached_task : JsValue :=
  JObj [("id", JStr "t-1"); ("status", JStr "PENDING"); ("userId", JStr "u-1")].

(** The cache after the owner "u-1" and an administrator have read the
    task "t-1" and the task list. *)
Definition cache_with_task : Cache.State :=
  Cache.set service_keyPrefix never_fails "task:t-1:admin" cached_task task_options
    (Cache.set service_keyPrefix never_fails "task:t-1:user:u-1" cached_task task_options
       cache_with_list).

End Scenarios.

(** * Properties *)

(** ** The job processor *)

Module WorkerSpec.

Import Worker Samples.

(** The fixed text that [process] puts before the name of an unknown job
    type shares no substring with the classifier's signals, so the message
    is classified as the name alone would be. *)
Lemma includes_unknown_prefix (nm kw : string) :
  In kw (infrastructure_signals ++ validation_signals ++
         notfound_signals ++ network_signals) ->
  includes ("Unknown job type: " +:+ nm) kw = includes nm kw.
Proof.
  intros H. cbn in H.
  repeat (destruct H as [<- | H]; [ cbn; try reflexivity | ]).
  all: try (destruct H).
  all: destruct nm; cbn; reflexivity.
Qed.

(** The four tests of [categorizeError], as [signals] over the groups. *)
Lemma categorizeError_cases (error : Thrown) (ctx : JobContext) :
  let msg := message_or_unknown error in
  categorizeError error ctx =
    if signals infrastructure_signals msg
    then mkErrorInfo "DatabaseError" msg true "infrastructure"
    else if signals validation_signals msg
    then mkErrorInfo "ValidationError" msg false "client"
    else if signals notfound_signals msg
    then mkErrorInfo "NotFoundError" msg false "client"
    else if signals network_signals msg
    then mkErrorInfo "NetworkError" msg true "infrastructure"
    else mkErrorInfo "UnknownError" msg true "unknown".
Proof.
  unfold categorizeError, signals; cbn.
  now rewrite !orb_false_r, !orb_assoc.
Qed.

(** Whatever the classification, [process] hands the runtime the error the
    guarded block threw, and counts one failure. *)
Lemma process_rethrows (clock : Clock) (job : Job) (st : State) :
  forall e st1,
    dispatch job (log (LogProcessing (contextOf job)) (snd (Date_now clock st))) = (Threw e, st1) ->
    exists st', process clock job st = (Threw e, st') /\
                failed (jobMetrics st') = S (failed (jobMetrics st1)) /\
                processed (jobMetrics st') = processed (jobMetrics st1).
Proof.
  intros e st1 H. unfold process. cbn in *. rewrite H. cbn.
  repeat match goal with |- context [if ?b then _ else _] => destruct b end;
    eexists; (split; [reflexivity | split; reflexivity]).
Qed.

(** C5 (counterexample): a message that signals "not found" and also names
    the database is classified infrastructure and retryable, not client. *)
Lemma C5_not_found_counterexample :
  let error := new_Error "database record not found" in
  let info := categorizeError error (mkJobContext "7" "task-status-update" 1 3) in
  includes (message_or_unknown error) "not found" = true /\
  category info = "infrastructure" /\ isRetryable info = true /\
  ~ (category info = "client" /\ isRetryable info = false).
Proof.
  cbn. repeat split; try reflexivity. intros [H _]. discriminate H.
Qed.

(** C5 (amended): the classification depends on the failure alone, not on
    the job context. A message with a database, connection, timeout or
    ECONNREFUSED signal is infrastructure and retryable; a message with
    "not found" and none of those signals is client and non-retryable; a
    message with no signal of any group is unknown and retryable. *)
Theorem C5_classifier (error : Thrown) (ctx ctx' : JobContext) :
  let msg := message_or_unknown error in
  let info := categorizeError error ctx in
  categorizeError error ctx' = info /\
  (signals infrastructure_signals msg = true ->
     category info = "infrastructure" /\ isRetryable info = true) /\
  (includes msg "not found" = true ->
   signals infrastructure_signals msg = false ->
     category info = "client" /\ isRetryable info = false) /\
  (signals infrastructure_signals msg = false ->
   signals validation_signals msg = false ->
   signals notfound_signals msg = false ->
   signals network_signals msg = false ->
     category info = "unknown" /\ isRetryable info = true).
Proof.
  intros msg info. subst info.
  split; [reflexivity |].
  rewrite categorizeError_cases. fold msg.
  split; [| split].
  - intros ->. split; reflexivity.
  - intros Hnf ->.
    destruct (signals validation_signals msg); [split; reflexivity |].
    assert (signals notfound_signals msg = true) as ->.
    { unfold signals, notfound_signals; cbn. rewrite Hnf. reflexivity. }
    split; reflexivity.
  - intros -> -> -> ->. split; reflexivity.
Qed.

(** C5 (witness): the three clauses at "connection timeout", at the
    message of [NotFoundException] and at an unrecognised message. *)
Lemma C5_classifier_witness :
  let ctx := mkJobContext "7" "task-status-update" 1 3 in
  (category (categorizeError (new_Error "connection timeout") ctx) = "infrastructure" /\
   isRetryable (categorizeError (new_Error "connection timeout") ctx) = true) /\
  (category (categorizeError (new_Error "Task not found") ctx) = "client" /\
   isRetryable (categorizeError (new_Error "Task not found") ctx) = false) /\
  (category (categorizeError (new_Error "disk full") ctx) = "unknown" /\
   isRetryable (categorizeError (new_Error "disk full") ctx) = true).
Proof.
  intros ctx. split; [| split].
  - apply (C5_classifier (new_Error "connection timeout") ctx ctx). reflexivity.
  - apply (C5_classifier (new_Error "Task not found") ctx ctx); reflexivity.
  - apply (C5_classifier (new_Error "disk full") ctx ctx); reflexivity.
Defined.

(** A job that fails validation: the error is the same at every attempt
    and is classified ValidationError, non-retryable. *)
Lemma validation_failure (job : Job) :
  fst (validateJobData job) = false ->
  (forall st, dispatch job st = (Threw (validation_error job), st)) /\
  forall ctx,
    type (categorizeError (validation_error job) ctx) = "ValidationError" /\
    isRetryable (categorizeError (validation_error job) ctx) = false.
Proof.
  intros Hinv. split.
  - intros st. unfold dispatch, validation_error.
    destruct (validateJobData job) as [isValid errors]. cbn [fst snd] in *.
    now rewrite Hinv.
  - intros ctx. unfold validation_error. revert Hinv. unfold validateJobData.
    destruct (data job) as [d |]; [| intros _; vm_compute; split; reflexivity].
    destruct (String.eqb (name job) "task-status-update");
      [| destruct (String.eqb (name job) "task-created");
         [| destruct (String.eqb (name job) "overdue-tasks-notification")]];
      destruct (truthy (taskId d)); try destruct (truthy (data_status d));
      try destruct (truthy (data_title d)); try destruct (truthy (data_dueDate d));
      cbn [fst snd app List.length Nat.eqb]; intros Hinv; try discriminate Hinv;
      vm_compute; split; reflexivity.
Qed.

(** One failed execution under the runtime. *)
Lemma deliver_failed_attempt (clock : Clock) (fuel : nat) (job : Job) (st st1 : State)
    (e : Thrown) :
  process clock job st = (Threw e, st1) ->
  deliver clock (S fuel) job st =
    if shouldRetryJob job e
    then match deliver clock fuel
                 (mkJob (job_id job) (name job) (data job) (S (attemptsMade job)) (opts job))
                 st1 with
         | Some (rest, st2) => Some (Threw e :: rest, st2)
         | None => None
         end
    else Some ([Threw e], st1).
Proof. intros Hp. cbn [deliver]. now rewrite Hp. Qed.

(** A job that fails validation and has [k + 1] attempts left is executed
    [k + 1] times. *)
Lemma invalid_job_runs_every_attempt (clock : Clock) (k : nat) :
  forall (job : Job) (n : nat) (st : State),
    fst (validateJobData job) = false ->
    attempts (opts job) = Some n ->
    attemptsMade job + S k = n ->
    exists st',
      deliver clock (S k) job st
        = Some (repeat (Threw (validation_error job)) (S k), st') /\
      failed (jobMetrics st') = S k + failed (jobMetrics st).
Proof.
  induction k as [| k IH]; intros job n st Hinv Hn Hk;
    destruct (validation_failure job Hinv) as [Hd _];
    destruct (process_rethrows clock job st _ _ (Hd _)) as (st1 & Hp & Hf & _);
    rewrite (deliver_failed_attempt clock _ job st st1 _ Hp);
    unfold shouldRetryJob; rewrite Hn.
  - replace (attemptsMade job + 1 <? n) with false by (symmetry; apply Nat.ltb_ge; lia).
    exists st1. split; [reflexivity |]. rewrite Hf. reflexivity.
  - replace (attemptsMade job + 1 <? n) with true by (symmetry; apply Nat.ltb_lt; lia).
    set (job' := mkJob (job_id job) (name job) (data job) (S (attemptsMade job)) (opts job)).
    destruct (IH job' n st1) as (st' & Hrun & Hf').
    { exact Hinv. }
    { exact Hn. }
    { cbn. lia. }
    change (validation_error job') with (validation_error job) in Hrun.
    rewrite Hrun. exists st'. split; [reflexivity |].
    rewrite Hf', Hf. cbn. lia.
Qed.

(** C1: a status update without [taskId] fails validation, which the
    classifier marks non-retryable; the processor re-raises the plain
    [Error], the runtime retries it like any failure, and the job is
    executed three times. *)
Lemma C1_nonretryable_failure_is_redelivered (clock : Clock) (st : State) :
  exists e st',
    deliver clock 3 invalid_status_job st = Some ([Threw e; Threw e; Threw e], st') /\
    e = new_Error "Job validation failed: taskId is required for status update" /\
    type (categorizeError e (contextOf invalid_status_job)) = "ValidationError" /\
    isRetryable (categorizeError e (contextOf invalid_status_job)) = false /\
    failed (jobMetrics st') = 3 + failed (jobMetrics st).
Proof.
  eexists; eexists. cbn. repeat split.
Qed.

(** C2 (counterexample): a job of kind "send-email" with data fails with an
    error that is classified retryable, and the runtime schedules a retry. *)
Lemma C2_unknown_kind_counterexample :
  known_kind (name unknown_kind_job) = false /\
  exists e st',
    process sample_clock unknown_kind_job (initial_state empty_db) = (Threw e, st') /\
    e = new_Error "Unknown job type: send-email" /\
    isRetryable (categorizeError e (contextOf unknown_kind_job)) = true /\
    shouldRetryJob unknown_kind_job e = true.
Proof.
  split; [reflexivity |]. eexists; eexists. cbn. repeat split.
Qed.

(** C2 (amended): a job that carries data and whose kind is not one of the
    three implemented ones fails with the re-raised error
    "Unknown job type: <kind>". The classifier reads that message like any
    other: it is classified as the kind's name alone would be, and when
    the name holds none of the classifier's signals the failure is
    UnknownError, category unknown, retryable. *)
Theorem C2_unknown_kind_is_classified_by_name
    (clock : Clock) (job : Job) (d : JobData) (st : State) :
  data job = Some d ->
  known_kind (name job) = false ->
  let e := new_Error ("Unknown job type: " +:+ name job) in
  let info := categorizeError e (contextOf job) in
  let by_name := categorizeError (new_Error (name job)) (contextOf job) in
  (exists st', process clock job st = (Threw e, st')) /\
  type info = type by_name /\
  category info = category by_name /\
  isRetryable info = isRetryable by_name /\
  (signals (infrastructure_signals ++ validation_signals ++
            notfound_signals ++ network_signals) (name job) = false ->
   type info = "UnknownError" /\ category info = "unknown" /\ isRetryable info = true).
Proof.
  intros Hd Hk e info by_name.
  assert (Hsig : forall kws,
             incl kws (infrastructure_signals ++ validation_signals ++
                       notfound_signals ++ network_signals) ->
             signals kws ("Unknown job type: " +:+ name job) = signals kws (name job)).
  { intros kws Hin. unfold signals. induction kws as [| k kws IH]; [reflexivity |].
    cbn [existsb]. rewrite includes_unknown_prefix by (apply Hin; left; reflexivity).
    rewrite IH; [reflexivity |]. intros x Hx. apply Hin. right. exact Hx. }
  assert (Hcases : info =
            let msg := "Unknown job type: " +:+ name job in
            if signals infrastructure_signals (name job)
            then mkErrorInfo "DatabaseError" msg true "infrastructure"
            else if signals validation_signals (name job)
            then mkErrorInfo "ValidationError" msg false "client"
            else if signals notfound_signals (name job)
            then mkErrorInfo "NotFoundError" msg false "client"
            else if signals network_signals (name job)
            then mkErrorInfo "NetworkError" msg true "infrastructure"
            else mkErrorInfo "UnknownError" msg true "unknown").
  { subst info e. rewrite categorizeError_cases. cbn [message_or_unknown new_Error].
    rewrite !Hsig; [reflexivity | | | |]; intros x Hx; cbn in *; tauto. }
  split; [| split; [| split; [| split]]].
  - apply orb_false_iff in Hk as [Hk Hk3]. apply orb_false_iff in Hk as [Hk1 Hk2].
    assert (Hdisp : forall s, dispatch job s = (Threw e, s)).
    { intros s. unfold dispatch, validateJobData. rewrite Hd, Hk1, Hk2, Hk3.
      cbn. reflexivity. }
    destruct (process_rethrows clock job st e _ (Hdisp _)) as (st' & Hp & _).
    exists st'. exact Hp.
  - rewrite Hcases. subst by_name. rewrite categorizeError_cases.
    cbn [message_or_unknown new_Error].
    repeat match goal with |- context [if ?b then _ else _] => destruct b end; reflexivity.
  - rewrite Hcases. subst by_name. rewrite categorizeError_cases.
    cbn [message_or_unknown new_Error].
    repeat match goal with |- context [if ?b then _ else _] => destruct b end; reflexivity.
  - rewrite Hcases. subst by_name. rewrite categorizeError_cases.
    cbn [message_or_unknown new_Error].
    repeat match goal with |- context [if ?b then _ else _] => destruct b end; reflexivity.
  - intros Hnone. unfold signals in *.
    rewrite !existsb_app in Hnone.
    apply orb_false_iff in Hnone as [H1 Hnone].
    apply orb_false_iff in Hnone as [H2 Hnone].
    apply orb_false_iff in Hnone as [H3 H4].
    rewrite Hcases, H1, H2, H3, H4. repeat split.
Qed.

(** C2 (witness): the amended statement at the "send-email" job. *)
Lemma C2_unknown_kind_witness :
  let job := unknown_kind_job in
  let info := categorizeError (new_Error ("Unknown job type: " +:+ name job)) (contextOf job) in
  type info = "UnknownError" /\ category info = "unknown" /\ isRetryable info = true.
Proof.
  intros job info.
  destruct (C2_unknown_kind_is_classified_by_name
              sample_clock job
              (mkJobData (Some "t-1") None None None None None None)
              (initial_state empty_db) eq_refl eq_refl) as (_ & _ & _ & _ & H).
  apply H. reflexivity.
Defined.

End WorkerSpec.

(** ** The overdue scanner *)

Module ScannerSpec.

Import Scanner Samples.

(** Sorting keeps the number of rows. *)
Lemma insert_by_dueDate_length (t : Task) (l : list Task) :
  List.length (insert_by_dueDate t l) = S (List.length l).
Proof.
  induction l as [| u l IH]; cbn; [reflexivity |].
  destruct (dueDate t <=? dueDate u)%Z; cbn; [reflexivity | now rewrite IH].
Qed.

Lemma sort_by_dueDate_length (l : list Task) :
  List.length (sort_by_dueDate l) = List.length l.
Proof.
  unfold sort_by_dueDate.
  induction l as [| t l IH]; [reflexivity |].
  cbn [foldr List.length]. now rewrite insert_by_dueDate_length, IH.
Qed.

(** The number of matching rows is the number of overdue rows of the
    table. *)
Lemma matching_length (now : Z) (d : Db) :
  List.length (matching now d) = List.length (List.filter (is_overdue now) (rows d)).
Proof. apply sort_by_dueDate_length. Qed.

Section Batch.
Variables (cfg : Config) (clock : Clock) (add_fails : nat -> bool).

(** One enqueue: one [EvAdd] event, accepted unless the queue rejects the
    call; the captured counters are not touched. *)
Lemma enqueue_one_effects (task : Task) (q : nat) (f : list string) (st : State) :
  exists q' f' st' j ok,
    enqueue_one cfg clock add_fails task (q, f) st = ((q', f'), st') /\
    trace st' = trace st ++ [EvAdd j ok] /\
    captured st' = captured st /\
    ok = negb (add_fails (adds st)) /\
    q' = (if ok then S q else q).
Proof.
  unfold enqueue_one, calculateOverdueDuration, Queue_add. cbn.
  destruct (0 <? _)%Z; cbn; destruct (add_fails (adds st)); cbn;
    repeat eexists.
Qed.

(** A page of enqueues: one [EvAdd] per task and nothing else; without
    rejections every task is counted. *)
Lemma enqueue_all_effects (tasks : list Task) :
  forall (q : nat) (f : list string) (st : State),
  exists q' f' st' evs,
    enqueue_all cfg clock add_fails tasks (q, f) st = ((q', f'), st') /\
    trace st' = trace st ++ evs /\
    captured st' = captured st /\
    List.length evs = List.length tasks /\
    Forall (fun e => is_add e = true) evs /\
    q' <= q + List.length tasks /\
    ((forall n, add_fails n = false) ->
       q' = q + List.length tasks /\ Forall (fun e => is_accepted_add e = true) evs).
Proof.
  induction tasks as [| task rest IH]; intros q f st.
  - exists q, f, st, []. cbn. rewrite app_nil_r.
    repeat split; try lia; constructor.
  - destruct (enqueue_one_effects task q f st)
      as (q1 & f1 & st1 & j & ok & H1 & Ht & Hc & Hok & Hq).
    destruct (IH q1 f1 st1) as (q2 & f2 & st2 & evs & H2 & Ht2 & Hc2 & Hl & Hadd & Hle & Hall).
    exists q2, f2, st2, (EvAdd j ok :: evs).
    cbn [enqueue_all]. rewrite H1, H2.
    split; [reflexivity |].
    split; [rewrite Ht2, Ht, <- app_assoc; reflexivity |].
    split; [congruence |].
    split; [cbn [List.length]; now rewrite Hl |].
    split; [constructor; [reflexivity | exact Hadd] |].
    split; [cbn [List.length]; destruct ok; simpl in Hq; lia |].
    intros Hnf. destruct (Hall Hnf) as [-> HF].
    rewrite Hnf in Hok. simpl in Hok. subst ok. simpl in Hq. subst q1.
    cbn [List.length]. split; [lia |].
    constructor; [reflexivity | exact HF].
Qed.

(** [processBatch] returns at most the page length, and the page length
    when no enqueue is rejected. *)
Lemma processBatch_effects (tasks : list Task) (st : State) :
  exists q st' evs,
    processBatch cfg clock add_fails tasks st = (q, st') /\
    trace st' = trace st ++ evs /\
    captured st' = captured st /\
    List.length evs = List.length tasks /\
    Forall (fun e => is_add e = true) evs /\
    q <= List.length tasks /\
    ((forall n, add_fails n = false) ->
       q = List.length tasks /\ Forall (fun e => is_accepted_add e = true) evs).
Proof.
  destruct (enqueue_all_effects tasks 0 [] st)
    as (q & f & st' & evs & H & Ht & Hc & Hl & Hadd & Hle & Hall).
  exists q, st', evs. unfold processBatch. rewrite H. cbn in Hle.
  repeat split; try assumption; apply Hall; assumption.
Qed.

(** Enqueue events are no fetches. *)
Lemma fetches_of_adds (evs : list Event) :
  Forall (fun e => is_add e = true) evs -> fetches evs = [].
Proof.
  induction 1 as [| e evs He _ IH]; [reflexivity |].
  destruct e; try discriminate He. exact IH.
Qed.

(** [processBatch] records no fetch. *)
Lemma processBatch_keeps_fetches (tasks : list Task) (st : State) :
  fetches (trace (snd (processBatch cfg clock add_fails tasks st))) = fetches (trace st).
Proof.
  destruct (processBatch_effects tasks st) as (q & st' & evs & H & Ht & _ & _ & Hadd & _).
  rewrite H. cbn [snd]. rewrite Ht. unfold fetches at 1. rewrite flat_map_app.
  fold (fetches evs). rewrite (fetches_of_adds evs Hadd). apply app_nil_r.
Qed.

End Batch.

Section Loop.
Variables (cfg : Config) (pb : list Task -> State -> nat * State).
Variables (d : Db) (now : Z).
Hypothesis Hup : outage d = None.
Hypothesis HB : 0 < BATCH_SIZE cfg.

(** The page at [offset]: [BATCH_SIZE] rows, or what is left. *)
Lemma find_page (offset : nat) :
  exists page,
    find now (BATCH_SIZE cfg) offset d = Returned page /\
    List.length page = Nat.min (BATCH_SIZE cfg) (List.length (matching now d) - offset).
Proof.
  unfold find. rewrite Hup. eexists. split; [reflexivity |].
  now rewrite length_take, length_drop.
Qed.

Let B := BATCH_SIZE cfg.
Let total := List.length (matching now d).

(** Fewer than [B] rows left: one last page. *)
Lemma page_plan_last (offset : nat) :
  total - offset < B -> page_plan B total offset = [(offset, total - offset)].
Proof.
  intros Hlt. unfold page_plan. rewrite Nat.div_small by exact Hlt. cbn.
  f_equal. f_equal; lia.
Qed.

(** At least [B] rows left: a full page, then the plan from [offset + B]. *)
Lemma page_plan_full (offset : nat) :
  B <= total - offset ->
  page_plan B total offset = (offset, B) :: page_plan B total (offset + B) /\
  (total - offset) / B = S ((total - (offset + B)) / B).
Proof.
  intros Hle.
  assert (Hdiv : (total - offset) / B = S ((total - (offset + B)) / B)).
  { replace (total - offset) with ((total - (offset + B)) + 1 * B) by lia.
    rewrite Nat.div_add by (unfold B; lia).
    lia. }
  split; [| exact Hdiv].
  unfold page_plan. rewrite Hdiv.
  set (k := (total - (offset + B)) / B).
  rewrite <- (cons_seq (S k) 0), <- seq_shift, map_cons, map_map.
  f_equal; [f_equal; lia |].
  apply map_ext. intros i. f_equal; [lia |].
  f_equal. lia.
Qed.

Hypothesis pb_keeps_fetches :
  forall ts s, fetches (trace (snd (pb ts s))) = fetches (trace s).

(** The loop returns within [(total - offset) / B + 1] iterations and
    fetches the pages of the plan, when the installed batch method records
    no fetch of its own. *)
Lemma scan_loop_fetches (fuel : nat) :
  forall (tp tq offset : nat) (st : State),
    (total - offset) / B < fuel ->
    exists r st',
      scan_loop cfg pb fuel d now tp tq offset st = Some (Returned r, st') /\
      fetches (trace st') = fetches (trace st) ++ page_plan B total offset.
Proof.
  induction fuel as [| fuel IH]; intros tp tq offset st Hfuel; [lia |].
  destruct (find_page offset) as (page & Hfind & Hlen).
  fold B total in Hlen.
  cbn [scan_loop]. rewrite Hfind. fold B.
  assert (Hemit : fetches (trace (emit (EvFetch offset B (List.length page)) st)) =
                  fetches (trace st) ++ [(offset, List.length page)]).
  { unfold emit, fetches. cbn [trace]. rewrite flat_map_app. reflexivity. }
  destruct (Nat.eqb_spec (List.length page) 0) as [Hz | Hnz].
  - eexists; eexists. split; [reflexivity |].
    rewrite Hemit, page_plan_last by lia. do 3 f_equal. lia.
  - destruct (pb page (emit (EvFetch offset B (List.length page)) st)) as [q st1] eqn:Hpb.
    assert (Hst1 : fetches (trace st1) = fetches (trace st) ++ [(offset, List.length page)]).
    { pose proof (pb_keeps_fetches page (emit (EvFetch offset B (List.length page)) st)) as Hk.
      rewrite Hpb in Hk. cbn [snd] in Hk. rewrite Hk. exact Hemit. }
    destruct (Nat.ltb_spec (List.length page) B) as [Hshort | Hfull].
    + eexists; eexists. split; [reflexivity |].
      rewrite Hst1, page_plan_last by lia. do 3 f_equal. lia.
    + destruct (page_plan_full offset) as [Hplan Hdiv]; [lia |].
      destruct (IH (tp + List.length page) (tq + q) (offset + B) st1) as (r & st' & Hrun & Hfet).
      { lia. }
      exists r, st'. split; [exact Hrun |].
      rewrite Hfet, Hst1, Hplan, <- app_assoc. cbn. do 3 f_equal. lia.
Qed.

End Loop.


(** C7: on a table that answers its queries, with a positive batch size,
    one run of [checkOverdueTasks] returns once the iteration bound exceeds
    [total / B]. Its fetches are the pages of [B] rows at offsets 0, [B],
    [2 * B], ...: every page before the last is full, the last one is short
    or empty, and there are at most [ceil (total / B) + 1] of them. *)
Theorem C7_scan_terminates (cfg : Config) (clock : Clock) (add_fails : nat -> bool)
    (d : Db) (st : State) (fuel : nat) :
  0 < BATCH_SIZE cfg ->
  outage d = None ->
  let B := BATCH_SIZE cfg in
  let total := List.length (matching (clock (S (reads st))) d) in
  total / B < fuel ->
  exists st',
    checkOverdueTasks cfg clock (processBatch cfg clock add_fails) fuel d st = Some st' /\
    let pages := page_plan B total 0 in
    fetches (trace st') = fetches (trace st) ++ pages /\
    List.length pages <= (total + B - 1) / B + 1 /\
    (forall (i off n : nat), pages !! i = Some (off, n) ->
       off = i * B /\ (if i <? total / B then n = B else n < B)).
Proof.
  intros HB Hup B total Hfuel.
  unfold checkOverdueTasks. cbn [Date_now].
  match goal with |- context [scan_loop _ _ _ _ _ _ _ _ ?s] => set (s0 := s) end.
  destruct (scan_loop_fetches cfg (processBatch cfg clock add_fails) d
              (clock (S (reads st))) Hup HB (processBatch_keeps_fetches cfg clock add_fails)
              fuel 0 0 0 s0) as (r & st1 & Hrun & Hfet).
  { rewrite Nat.sub_0_r. exact Hfuel. }
  cbn [reads] in *. rewrite Hrun. destruct r as [tp tq]. cbn [Date_now].
  eexists. split; [reflexivity |].
  split; [| split].
  - unfold emit. cbn [trace]. unfold fetches at 1. rewrite flat_map_app. cbn [flat_map].
    fold (fetches (trace st1)). rewrite app_nil_r. exact Hfet.
  - unfold page_plan. rewrite length_map, length_seq, Nat.sub_0_r.
    assert (total / B <= (total + B - 1) / B) by (apply Nat.Div0.div_le_mono; lia).
    fold total B. lia.
  - intros i off n Hi. unfold page_plan in Hi. rewrite Nat.sub_0_r in Hi.
    rewrite list_lookup_fmap in Hi.
    destruct (seq 0 (S (total / B)) !! i) as [j |] eqn:Hj; [| discriminate].
    apply lookup_seq in Hj as [-> Hlt]. cbn in Hi. injection Hi as <- <-.
    split; [lia |].
    pose proof (Nat.div_mod_eq total B) as Hdm.
    pose proof (Nat.mod_upper_bound total B ltac:(lia)) as Hmod.
    destruct (Nat.ltb_spec i (total / B)) as [Hfullp | Hlast].
    + apply Nat.min_l. nia.
    + assert (i = total / B) as -> by lia. nia.
Qed.

Section Trigger.
Variables (cfg : Config) (clock : Clock) (add_fails : nat -> bool).

(** The enqueue code neither reads nor writes the captured counters. *)
Lemma enqueue_one_captured (c : nat * nat) (task : Task) (acc : nat * list string) (st : State) :
  enqueue_one cfg clock add_fails task acc (set_captured c st) =
  (fst (enqueue_one cfg clock add_fails task acc st),
   set_captured c (snd (enqueue_one cfg clock add_fails task acc st))).
Proof.
  destruct acc as [q f].
  unfold enqueue_one, calculateOverdueDuration, Queue_add, set_captured. cbn.
  destruct (0 <? _)%Z; cbn; destruct (add_fails (adds st)); reflexivity.
Qed.

Lemma enqueue_all_captured (c : nat * nat) (tasks : list Task) :
  forall (acc : nat * list string) (st : State),
    enqueue_all cfg clock add_fails tasks acc (set_captured c st) =
    (fst (enqueue_all cfg clock add_fails tasks acc st),
     set_captured c (snd (enqueue_all cfg clock add_fails tasks acc st))).
Proof.
  induction tasks as [| task rest IH]; intros acc st; [reflexivity |].
  cbn [enqueue_all]. rewrite enqueue_one_captured.
  destruct (enqueue_one cfg clock add_fails task acc st) as [acc1 st1]. cbn [fst snd].
  apply IH.
Qed.

Lemma processBatch_captured (c : nat * nat) (tasks : list Task) (st : State) :
  processBatch cfg clock add_fails tasks (set_captured c st) =
  (fst (processBatch cfg clock add_fails tasks st),
   set_captured c (snd (processBatch cfg clock add_fails tasks st))).
Proof.
  unfold processBatch. rewrite enqueue_all_captured.
  destruct (enqueue_all cfg clock add_fails tasks (0, []) st) as [[q f] st1]. reflexivity.
Qed.

(** The installed closure returns what the original returns and changes the
    state as the original does, apart from the two captured counters. *)
Lemma counting_processBatch_spec (c : nat * nat) (tasks : list Task) (st : State) :
  let r := processBatch cfg clock add_fails tasks st in
  counting_processBatch (processBatch cfg clock add_fails) tasks (set_captured c st) =
  (fst r, set_captured (fst c + List.length tasks, snd c + fst r) (snd r)).
Proof.
  intros r. subst r. unfold counting_processBatch.
  change (captured (set_captured c st)) with c.
  change (set_captured (c.1 + List.length tasks, c.2) (set_captured c st))
    with (set_captured (c.1 + List.length tasks, c.2) st).
  rewrite processBatch_captured.
  destruct (processBatch cfg clock add_fails tasks st) as [q st1]. reflexivity.
Qed.

(** Recording an event does not touch the captured counters. *)
Lemma emit_captured (c : nat * nat) (e : Event) (st : State) :
  emit e (set_captured c st) = set_captured c (emit e st).
Proof. reflexivity. Qed.

(** The loop run through the counting closure takes the steps of the loop
    run through [processBatch]; the captured counters grow by what the loop
    adds to its own totals. *)
Lemma scan_loop_counting (d : Db) (now : Z) (fuel : nat) :
  forall (tp tq offset : nat) (c : nat * nat) (st : State),
    match scan_loop cfg (processBatch cfg clock add_fails) fuel d now tp tq offset st with
    | None =>
        scan_loop cfg (counting_processBatch (processBatch cfg clock add_fails))
                  fuel d now tp tq offset (set_captured c st) = None
    | Some (Threw e, st') =>
        exists c',
        scan_loop cfg (counting_processBatch (processBatch cfg clock add_fails))
                  fuel d now tp tq offset (set_captured c st)
        = Some (Threw e, set_captured c' st')
    | Some (Returned (tp', tq'), st') =>
        scan_loop cfg (counting_processBatch (processBatch cfg clock add_fails))
                  fuel d now tp tq offset (set_captured c st)
        = Some (Returned (tp', tq'),
                set_captured (fst c + (tp' - tp), snd c + (tq' - tq)) st') /\
        tp <= tp' /\ tq <= tq'
    end.
Proof.
  induction fuel as [| fuel IH]; intros tp tq offset c st; [reflexivity |].
  cbn [scan_loop].
  destruct (find now (BATCH_SIZE cfg) offset d) as [page | e].
  2:{ exists c. reflexivity. }
  rewrite emit_captured.
  destruct (Nat.eqb (List.length page) 0).
  { split; [| lia]. rewrite !Nat.sub_diag, !Nat.add_0_r. now destruct c. }
  rewrite counting_processBatch_spec.
  destruct (processBatch cfg clock add_fails page _) as [q st1]. cbn [fst snd].
  destruct (List.length page <? BATCH_SIZE cfg).
  { split; [| lia]. do 3 f_equal. f_equal; lia. }
  specialize (IH (tp + List.length page) (tq + q) (offset + BATCH_SIZE cfg)
                 (c.1 + List.length page, c.2 + q) st1).
  destruct (scan_loop cfg (processBatch cfg clock add_fails) fuel d now _ _ _ st1)
    as [[[[tp' tq'] | e] st'] |].
  - destruct IH as (IH & H1 & H2). rewrite IH. cbn [fst snd].
    split; [| lia]. do 3 f_equal. f_equal; lia.
  - exact IH.
  - exact IH.
Qed.

End Trigger.

(** When the table rejects its queries the run ends after the first fetch:
    the failure is logged and nothing is raised. *)
Lemma scan_ends_on_outage (cfg : Config) (clock : Clock)
    (pb : list Task -> State -> nat * State) (d : Db) (st : State)
    (fuel : nat) (msg : string) :
  outage d = Some msg ->
  exists st',
    checkOverdueTasks cfg clock pb (S fuel) d st = Some st' /\
    trace st' = trace st ++ [EvFetchFailed 0 (BATCH_SIZE cfg); EvFailed msg] /\
    queue st' = queue st.
Proof.
  intros Hout. unfold checkOverdueTasks. cbn [Date_now scan_loop].
  unfold find. rewrite Hout. cbn [Date_now message_or_unknown].
  eexists. split; [reflexivity |]. split; [| reflexivity].
  unfold emit. cbn [trace]. now rewrite <- app_assoc.
Qed.

Import Views.

(** The queue knows an id when one of its jobs carries it. *)
Lemma existsb_job_ids (jid : string) (q : list QueuedJob) :
  existsb (fun j => String.eqb (jobId (queued_opts j)) jid) q = true <-> In jid (job_ids q).
Proof.
  rewrite existsb_exists. unfold job_ids. rewrite in_map_iff. split.
  - intros (j & Hin & He). apply String.eqb_eq in He. eauto.
  - intros (j & He & Hin). exists j. split; [exact Hin |]. now apply String.eqb_eq.
Qed.

(** One accepted enqueue: the job is added unless its id is known. *)
Lemma grown_one (q : list QueuedJob) (j : QueuedJob) :
  let known := existsb (fun j0 => String.eqb (jobId (queued_opts j0)) (jobId (queued_opts j))) q in
  grown q [j] (if known then [] else [j]) (if known then q else q ++ [j]).
Proof.
  intros known. destruct known eqn:Hk; subst known.
  - apply existsb_job_ids in Hk.
    split; [now rewrite app_nil_r |]. split; [intros j0 [] |].
    split; [intros j0 [<- | []]; exact Hk |].
    intros Hnd. exfalso. apply NoDup_app in Hnd as (_ & Hdis & _).
    apply (Hdis (jobId (queued_opts j))); [now apply list_elem_of_In | cbn; left].
  - split; [reflexivity |]. split; [auto |].
    split; [| reflexivity].
    intros j0 [<- | []]. unfold job_ids. rewrite map_app. apply in_or_app. right. now left.
Qed.

(** Accepted enqueues one after the other. *)
Lemma grown_app (q0 q1 q2 b1 b2 n1 n2 : list QueuedJob) :
  grown q0 b1 n1 q1 -> grown q1 b2 n2 q2 -> grown q0 (b1 ++ b2) (n1 ++ n2) q2.
Proof.
  intros (E1 & I1 & H1 & N1) (E2 & I2 & H2 & N2).
  split; [rewrite E2, E1; now rewrite app_assoc |].
  split; [intros j Hj; apply in_app_or in Hj as [Hj | Hj]; apply in_or_app; auto |].
  split.
  - intros j Hj. apply in_app_or in Hj as [Hj | Hj]; [| auto].
    rewrite E2. unfold job_ids. rewrite map_app. apply in_or_app. left. now apply H1.
  - intros Hnd. unfold job_ids in Hnd. rewrite map_app, app_assoc in Hnd.
    fold (job_ids q0) (job_ids b1) (job_ids b2) in Hnd.
    assert (Hnd1 : NoDup (job_ids q0 ++ job_ids b1)) by (now apply NoDup_app in Hnd as (? & _)).
    specialize (N1 Hnd1). subst n1.
    assert (Hq1 : job_ids q1 = job_ids q0 ++ job_ids b1)
      by (rewrite E1; unfold job_ids; now rewrite map_app).
    rewrite <- Hq1 in Hnd. now rewrite (N2 Hnd).
Qed.

Section AcceptedBatch.
Variables (cfg : Config) (clock : Clock) (add_fails : nat -> bool).
Hypothesis Hnf : forall n, add_fails n = false.

(** One enqueue that the queue accepts: the job built for the task, its
    id, the call counted and the queue after it. *)
Lemma enqueue_one_run (task : Task) (q : nat) (f : list string) (st : State) :
  exists j new st',
    enqueue_one cfg clock add_fails task (q, f) st = ((S q, f), st') /\
    notification_of cfg task j /\
    jobId (queued_opts j) = "overdue-" +:+ id task +:+ "-" +:+ pretty (clock (S (reads st))) /\
    trace st' = trace st ++ [EvAdd (jobId (queued_opts j)) true] /\
    adds st' = S (adds st) /\
    reads st' = S (S (reads st)) /\
    grown (queue st) [j] new (queue st').
Proof.
  exists {| queued_name := "overdue-tasks-notification";
            queued_data :=
              mkOverduePayload (id task) (title task) (dueDate task) (status task)
                (userId task) (fst (calculateOverdueDuration clock (dueDate task) st));
            queued_opts :=
              {| attempts := MAX_RETRIES cfg; backoff_type := "exponential";
                 backoff_delay := 5000; priority := 10;
                 jobId := "overdue-" +:+ id task +:+ "-" +:+ pretty (clock (S (reads st))) |} |}.
  unfold enqueue_one, calculateOverdueDuration, Queue_add. cbn [Date_now].
  destruct (0 <? _)%Z; cbn [adds fst]; rewrite Hnf;
    (eexists; eexists; split; [reflexivity |];
     split; [repeat split |]; split; [reflexivity |]; split; [reflexivity |];
     split; [reflexivity |]; split; [reflexivity |]; cbn [queue]; apply grown_one).
Qed.

(** A page of accepted enqueues: one job per task, in the order of the
    page. *)
Lemma enqueue_all_run (tasks : list Task) :
  forall (q : nat) (f : list string) (st : State),
  exists built new st',
    enqueue_all cfg clock add_fails tasks (q, f) st = ((q + List.length tasks, f), st') /\
    Forall2 (notification_of cfg) tasks built /\
    job_ids built = planned_ids clock (reads st) tasks /\
    trace st' = trace st ++ map (fun j => EvAdd (jobId (queued_opts j)) true) built /\
    adds st' = adds st + List.length tasks /\
    reads st' = reads st + 2 * List.length tasks /\
    grown (queue st) built new (queue st').
Proof.
  induction tasks as [| task rest IH]; intros q f st.
  - exists [], [], st. cbn. rewrite !Nat.add_0_r, app_nil_r.
    repeat split; try reflexivity; try constructor; try (intros j []).
    now rewrite app_nil_r.
  - destruct (enqueue_one_run task q f st)
      as (j & n1 & st1 & H1 & Hn & Hid & Ht1 & Ha1 & Hr1 & Hg1).
    destruct (IH (S q) f st1) as (built & n2 & st2 & H2 & HF & Hids & Ht2 & Ha2 & Hr2 & Hg2).
    exists (j :: built), (n1 ++ n2), st2.
    cbn [enqueue_all]. rewrite H1, H2. cbn [List.length].
    split; [do 2 f_equal; lia |].
    split; [constructor; assumption |].
    split; [cbn [job_ids map planned_ids]; rewrite Hid; f_equal;
            fold (job_ids built); now rewrite Hids, Hr1 |].
    split; [rewrite Ht2, Ht1, <- app_assoc; reflexivity |].
    split; [lia |]. split; [lia |].
    exact (grown_app _ _ _ [j] built _ _ Hg1 Hg2).
Qed.

(** [processBatch] on a queue that accepts every call. *)
Lemma processBatch_run (tasks : list Task) (st : State) :
  exists built new st',
    processBatch cfg clock add_fails tasks st = (List.length tasks, st') /\
    Forall2 (notification_of cfg) tasks built /\
    job_ids built = planned_ids clock (reads st) tasks /\
    trace st' = trace st ++ map (fun j => EvAdd (jobId (queued_opts j)) true) built /\
    adds st' = adds st + List.length tasks /\
    reads st' = reads st + 2 * List.length tasks /\
    grown (queue st) built new (queue st').
Proof.
  destruct (enqueue_all_run tasks 0 [] st) as (built & new & st' & H & Hrest).
  exists built, new, st'. unfold processBatch. rewrite H. split; [reflexivity | exact Hrest].
Qed.

End AcceptedBatch.

(** The ids planned for two pages in a row. *)
Lemma planned_ids_app (clock : Clock) (a b : list Task) :
  forall r, planned_ids clock r (a ++ b)
            = planned_ids clock r a ++ planned_ids clock (r + 2 * List.length a) b.
Proof.
  induction a as [| t a IH]; intros r; cbn [app planned_ids List.length].
  - now rewrite Nat.add_0_r.
  - rewrite IH. do 3 f_equal. lia.
Qed.


(** The page the table returns while it answers. *)
Lemma find_rows (now : Z) (take skip : nat) (d : Db) :
  outage d = None -> find now take skip d = Returned (firstn take (skipn skip (matching now d))).
Proof. intros Hup. unfold find. now rewrite Hup. Qed.

(** The events of accepted enqueues. *)
Lemma accepted_adds_of_jobs (built : list QueuedJob) :
  Forall (fun e => is_accepted_add e = true)
         (map (fun j => EvAdd (jobId (queued_opts j)) true) built).
Proof. induction built as [| j built IH]; constructor; [reflexivity | exact IH]. Qed.

(** C8: with 150 matching rows, batches of 100 and no rejected enqueue, the
    manual trigger returns [(150, 150)]. Its run is the run of
    [checkOverdueTasks], which ends in the same state but for the two
    captured counters: a fetch of 100 rows at offset 0, 100 accepted
    enqueues, a fetch of 50 rows at offset 100, 50 accepted enqueues, the
    completion line, and no further fetch. The enqueues are 150 calls of
    [Queue.add], one per matching row in the order of the due dates, each
    with the job built for its row and the id made of the row's id and the
    clock reading of that call. The queue keeps its jobs and is extended
    with jobs of the run; it holds a job for the id of every call; and
    when no id of the run occurs twice or is already held, the jobs added
    are the 150 jobs of the run. *)
Theorem C8_manual_trigger_150 (clock : Clock) (add_fails : nat -> bool)
    (d : Db) (st : State) (fuel : nat) :
  outage d = None ->
  (forall n, add_fails n = false) ->
  List.length (matching (clock (S (reads st))) d) = 150 ->
  2 <= fuel ->
  exists st' st_cron adds1 adds2 built new,
    triggerOverdueCheck defaults clock add_fails fuel d st = Some ((150, 150), st') /\
    checkOverdueTasks defaults clock (processBatch defaults clock add_fails) fuel d st
      = Some st_cron /\
    st' = set_captured (150, 150) st_cron /\
    trace st' = trace st ++ [EvFetch 0 100 100] ++ adds1 ++
                            [EvFetch 100 100 50] ++ adds2 ++ [EvCompleted 150 150] /\
    List.length adds1 = 100 /\ Forall (fun e => is_accepted_add e = true) adds1 /\
    List.length adds2 = 50 /\ Forall (fun e => is_accepted_add e = true) adds2 /\
    adds st' = adds st + 150 /\
    adds1 ++ adds2 = map (fun j => EvAdd (jobId (queued_opts j)) true) built /\
    Forall2 (notification_of defaults) (matching (clock (S (reads st))) d) built /\
    job_ids built = planned_ids clock (S (S (reads st))) (matching (clock (S (reads st))) d) /\
    queue st' = queue st ++ new /\
    (forall j, In j new -> In j built) /\
    (forall j, In j built -> In (jobId (queued_opts j)) (job_ids (queue st'))) /\
    (NoDup (job_ids (queue st) ++ job_ids built) ->
     new = built /\ List.length (queue st') = List.length (queue st) + 150).
Proof.
  intros Hup Hnf Htotal Hfuel.
  destruct fuel as [| [| fuel]]; [lia | lia |].
  set (now := clock (S (reads st))) in *.
  set (s0 := {| queue := queue st; reads := S (S (reads st)); adds := adds st;
                trace := trace st; captured := captured st |}).
  set (page1 := firstn 100 (skipn 0 (matching now d))).
  set (page2 := firstn 100 (skipn 100 (matching now d))).
  assert (Hl1 : List.length page1 = 100)
    by (subst page1; rewrite length_firstn, length_skipn, Htotal; reflexivity).
  assert (Hl2 : List.length page2 = 50)
    by (subst page2; rewrite length_firstn, length_skipn, Htotal; reflexivity).
  assert (Hpages : matching now d = page1 ++ page2).
  { subst page1 page2. cbn [skipn].
    rewrite (take_ge (skipn 100 (matching now d)) 100)
      by (rewrite length_skipn, Htotal; cbn; lia).
    symmetry. apply firstn_skipn. }
  (* the loop through the original method *)
  assert (Hcron : exists st2 built1 built2 new1 new2,
             scan_loop defaults (processBatch defaults clock add_fails)
                       (S (S fuel)) d now 0 0 0 s0 = Some (Returned (150, 150), st2) /\
             trace st2 = trace st ++ [EvFetch 0 100 100] ++
                           map (fun j => EvAdd (jobId (queued_opts j)) true) built1 ++
                           [EvFetch 100 100 50] ++
                           map (fun j => EvAdd (jobId (queued_opts j)) true) built2 /\
             adds st2 = adds st + 150 /\
             Forall2 (notification_of defaults) page1 built1 /\
             Forall2 (notification_of defaults) page2 built2 /\
             job_ids built1 = planned_ids clock (S (S (reads st))) page1 /\
             job_ids built2 = planned_ids clock (S (S (reads st)) + 2 * 100) page2 /\
             grown (queue st) (built1 ++ built2) (new1 ++ new2) (queue st2)).
  { pose proof (find_rows now 100 0 d Hup) as Hf1.
    pose proof (find_rows now 100 100 d Hup) as Hf2.
    fold page1 in Hf1. fold page2 in Hf2.
    cbn [scan_loop BATCH_SIZE defaults]. rewrite Hf1, Hl1. cbn [Nat.eqb Nat.ltb Nat.leb].
    destruct (processBatch_run defaults clock add_fails Hnf page1
                (emit (EvFetch 0 100 100) s0))
      as (built1 & new1 & st1 & Hp1 & HF1 & Hid1 & Ht1 & Ha1 & Hr1 & Hg1).
    rewrite Hp1, Hl1.
    cbn [Nat.add Nat.ltb Nat.leb]. rewrite Hf2, Hl2. cbn [Nat.eqb].
    destruct (processBatch_run defaults clock add_fails Hnf page2
                (emit (EvFetch 100 100 50) st1))
      as (built2 & new2 & st2 & Hp2 & HF2 & Hid2 & Ht2 & Ha2 & Hr2 & Hg2).
    rewrite Hp2, Hl2.
    exists st2, built1, built2, new1, new2. split; [reflexivity |].
    cbn [emit trace adds reads queue s0] in *.
    split; [rewrite Ht2, Ht1, <- !app_assoc; reflexivity |].
    split; [lia |]. split; [exact HF1 |]. split; [exact HF2 |].
    split; [exact Hid1 |]. split; [rewrite Hid2, Hr1, Hl1; reflexivity |].
    exact (grown_app _ _ _ _ _ _ _ Hg1 Hg2). }
  destruct Hcron as (st2 & built1 & built2 & new1 & new2 & Hloop & Htr & Hadds & HF1 & HF2
                     & Hid1 & Hid2 & Hg).
  pose proof (scan_loop_counting defaults clock add_fails d now (S (S fuel)) 0 0 0 (0, 0) s0)
    as Hsim.
  rewrite Hloop in Hsim. destruct Hsim as (Hsim & _ & _).
  cbn [fst snd Nat.sub Nat.add] in Hsim.
  eexists; eexists.
  exists (map (fun j => EvAdd (jobId (queued_opts j)) true) built1),
         (map (fun j => EvAdd (jobId (queued_opts j)) true) built2),
         (built1 ++ built2), (new1 ++ new2).
  unfold triggerOverdueCheck, checkOverdueTasks. cbn [Date_now].
  change (clock (reads (set_captured (0, 0) st))) with (clock (reads st)).
  cbn [set_captured reads queue adds trace captured].
  fold now. fold s0.
  change {| queue := queue st; reads := S (S (reads st)); adds := adds st;
            trace := trace st; captured := (0, 0) |} with (set_captured (0, 0) s0).
  rewrite Hsim, Hloop. cbn [Date_now emit set_captured captured reads queue adds trace].
  split; [reflexivity |]. split; [reflexivity |]. split; [reflexivity |].
  split; [unfold emit; cbn [trace]; rewrite Htr, <- ?app_assoc; reflexivity |].
  split; [rewrite length_map, <- (Forall2_length _ _ _ HF1); exact Hl1 |].
  split; [apply accepted_adds_of_jobs |].
  split; [rewrite length_map, <- (Forall2_length _ _ _ HF2); exact Hl2 |].
  split; [apply accepted_adds_of_jobs |].
  split; [exact Hadds |].
  split; [now rewrite map_app |].
  split; [rewrite Hpages; now apply Forall2_app |].
  split.
  { rewrite Hpages, planned_ids_app, Hl1. unfold job_ids. rewrite map_app.
    fold (job_ids built1) (job_ids built2). now rewrite Hid1, Hid2. }
  destruct Hg as (Eq & Incl & Held & Hnd).
  split; [exact Eq |]. split; [exact Incl |]. split; [exact Held |].
  intros Hno. specialize (Hnd Hno). split; [exact Hnd |].
  cbn [emit queue]. rewrite Eq, Hnd, !length_app.
  rewrite <- (Forall2_length _ _ _ HF1), <- (Forall2_length _ _ _ HF2), Hl1, Hl2. reflexivity.
Qed.

(** From one hour of delay on, [calculateOverdueDuration] renders what the
    interface description says. *)
Lemma calculateOverdueDuration_as_described (clock : Clock) (st : State) (due : Z) :
  (60 * 60 * 1000 <= clock (reads st) - due)%Z ->
  fst (calculateOverdueDuration clock due st) = overdueBy_described (clock (reads st)) due.
Proof.
  intros Hpast. unfold calculateOverdueDuration, overdueBy_described. cbn [Date_now].
  set (diff := (clock (reads st) - due)%Z) in *.
  replace (diff / (1000 * 60 * 60) / 24)%Z with (diff / (24 * 60 * 60 * 1000))%Z
    by (rewrite Z.div_div by lia; f_equal).
  replace (1000 * 60 * 60)%Z with (60 * 60 * 1000)%Z by reflexivity.
  assert (1 <= diff / (60 * 60 * 1000))%Z by (apply Z.div_le_lower_bound; lia).
  destruct (0 <? diff / (24 * 60 * 60 * 1000))%Z eqn:Hd; cbn [fst].
  - apply Z.ltb_lt in Hd.
    destruct (Z.ltb_spec 1 (diff / (24 * 60 * 60 * 1000))) as [Hm | Hone].
    + rewrite (proj2 (Z.eqb_neq _ 1)) by lia. reflexivity.
    + rewrite (proj2 (Z.eqb_eq _ 1)) by lia. reflexivity.
  - destruct (Z.ltb_spec 1 (diff / (60 * 60 * 1000))) as [Hm | Hone].
    + rewrite (proj2 (Z.eqb_neq _ 1)) by lia. reflexivity.
    + rewrite (proj2 (Z.eqb_eq _ 1)) by lia. reflexivity.
Qed.

(** C6: a task due half an hour ago is rendered "0 hour", where the
    description (singular exactly at a count of 1) gives "0 hours"; the two
    scenarios of the description, 26 hours and 3 hours, come out as
    described. *)
Lemma C6_due_half_an_hour_ago_renders_0_hour :
  let now := sample_clock 0 in
  fst (calculateOverdueDuration sample_clock (now - 30 * 60 * 1000) initial_state) = "0 hour" /\
  overdueBy_described now (now - 30 * 60 * 1000) = "0 hours" /\
  fst (calculateOverdueDuration sample_clock (now - 26 * 60 * 60 * 1000) initial_state) = "1 day" /\
  fst (calculateOverdueDuration sample_clock (now - 3 * 60 * 60 * 1000) initial_state) = "3 hours".
Proof. vm_compute. repeat split. Qed.

(** The queue model does drop a second job that carries the id of a job it
    holds. *)
Lemma Queue_add_same_id_once (job : QueuedJob) (st : State) :
  queue st = [] ->
  queue (snd (Queue_add never_fails job (snd (Queue_add never_fails job st)))) = [job].
Proof.
  intros Hq. unfold Queue_add. cbn. rewrite Hq. cbn.
  rewrite String.eqb_refl. reflexivity.
Qed.

(** Two enqueues of one task at different milliseconds carry different job
    ids. *)
Lemma jobId_differs_by_the_millisecond (task_id : string) (t1 t2 : Z) :
  t1 <> t2 ->
  "overdue-" +:+ task_id +:+ "-" +:+ pretty t1 <>
  "overdue-" +:+ task_id +:+ "-" +:+ pretty t2.
Proof.
  intros Hne Heq. apply Hne.
  do 3 apply (inj (String.app _)) in Heq.
  now apply (inj pretty) in Heq.
Qed.

(** C3: two scans of a table with one overdue task, the second starting
    when the first has ended, enqueue two jobs for that task. Their ids end
    in the millisecond of each enqueue, so they differ and the queue holds
    both. *)
Lemma C3_second_scan_enqueues_the_task_again :
  exists st1 st2,
    checkOverdueTasks defaults sample_clock
      (processBatch defaults sample_clock never_fails) 2 overdue_db initial_state = Some st1 /\
    checkOverdueTasks defaults sample_clock
      (processBatch defaults sample_clock never_fails) 2 overdue_db st1 = Some st2 /\
    map (fun j => (taskId (queued_data j), jobId (queued_opts j))) (queue st2) =
      [("t-1", "overdue-t-1-1700000000003"); ("t-1", "overdue-t-1-1700000000008")].
Proof.
  eexists; eexists.
  split; [vm_compute; reflexivity |].
  split; [vm_compute; reflexivity |].
  vm_compute. reflexivity.
Qed.

(** C7 (witness): the run over the table of 150 overdue tasks. *)
Lemma C7_scan_terminates_witness :
  exists st',
    checkOverdueTasks defaults sample_clock
      (processBatch defaults sample_clock never_fails) 2 backlog_db initial_state = Some st' /\
    fetches (trace st') = [(0, 100); (100, 50)].
Proof.
  assert (HB : 0 < BATCH_SIZE defaults) by (cbn; lia).
  assert (Hup : outage backlog_db = None) by reflexivity.
  assert (Hfuel : List.length (matching (sample_clock (S (reads initial_state))) backlog_db)
                  / BATCH_SIZE defaults < 2) by (vm_compute; lia).
  destruct (C7_scan_terminates defaults sample_clock never_fails backlog_db initial_state 2
              HB Hup Hfuel) as (st' & Hrun & Hfet & _).
  exists st'. split; [exact Hrun |]. rewrite Hfet. vm_compute. reflexivity.
Defined.

(** C8 (witness): the manual trigger over the table of 150 overdue tasks,
    on an empty queue: 150 calls, 150 jobs. *)
Lemma C8_manual_trigger_150_witness :
  exists st',
    triggerOverdueCheck defaults sample_clock never_fails 2 backlog_db initial_state
      = Some ((150, 150), st') /\
    adds st' = 150 /\
    List.length (queue st') = 150.
Proof.
  assert (Hup : outage backlog_db = None) by reflexivity.
  assert (Hnf : forall n, never_fails n = false) by (intros n; reflexivity).
  assert (Htotal : List.length (matching (sample_clock (S (reads initial_state))) backlog_db)
                   = 150) by (vm_compute; reflexivity).
  assert (Hfuel : 2 <= 2) by lia.
  assert (Hids : NoDup (job_ids (queue initial_state) ++
                        planned_ids sample_clock (S (S (reads initial_state)))
                          (matching (sample_clock (S (reads initial_state))) backlog_db))).
  { apply (bool_decide_unpack _). vm_compute. exact I. }
  destruct (C8_manual_trigger_150 sample_clock never_fails backlog_db initial_state 2
              Hup Hnf Htotal Hfuel)
    as (st' & _ & _ & _ & built & new & Hrun & _ & _ & _ & _ & _ & _ & _ & Hadds & _ & _
        & Hbuilt & _ & _ & _ & Hnew).
  exists st'. split; [exact Hrun |]. split; [exact Hadds |].
  rewrite <- Hbuilt in Hids. exact (proj2 (Hnew Hids)).
Defined.

End ScannerSpec.

(** ** The cache-aside layer *)

Module CacheSpec.

Import Cache CompactJson Samples.

Section CacheAside.

Context {json : Json}.
Variables (keyPrefix : string) (backend_fails : nat -> bool).

Local Abbreviation get := (get keyPrefix backend_fails).
Local Abbreviation set := (set keyPrefix backend_fails).
Local Abbreviation getOrSet := (getOrSet keyPrefix backend_fails).

(** [get] sends one command and leaves the server as it is. *)
Lemma get_sends_one_command (key : string) (ns : option string) (st : State) :
  snd (get key ns st) = sent (server st) st.
Proof.
  unfold Cache.get, redis_get.
  destruct (backend_fails (commands st)); [reflexivity |]. cbn.
  destruct (negb _); [reflexivity |].
  destruct (JSON_parse _); reflexivity.
Qed.

(** A rejected [GET] is answered with the miss. *)
Lemma get_backend_failure (key : string) (ns : option string) (st : State) :
  backend_fails (commands st) = true -> fst (get key ns st) = JNull.
Proof. intros H. unfold Cache.get, redis_get. now rewrite H. Qed.

(** What [get] answers when the backend replies. *)
Lemma get_of_live (key : string) (ns : option string) (st : State) :
  backend_fails (commands st) = false ->
  fst (get key ns st) =
    match live (server st) (keyPrefix +:+ buildKey key ns) with
    | Some payload =>
        if String.eqb payload EmptyString then JNull
        else match JSON_parse payload with Some v => v | None => JNull end
    | None => JNull
    end.
Proof.
  intros H. unfold Cache.get, redis_get. rewrite H. cbn.
  destruct (live _ _) as [payload |]; cbn; [| reflexivity].
  destruct (String.eqb payload EmptyString); cbn; [reflexivity |].
  destruct (JSON_parse payload); reflexivity.
Qed.

(** A rejected [SETEX] leaves the server as it is. *)
Lemma set_backend_failure (key : string) (value : JsValue) (options : CacheOptions) (st : State) :
  backend_fails (commands st) = true ->
  set key value options st = sent (server st) st.
Proof. intros H. unfold Cache.set, redis_setex. now rewrite H. Qed.

(** [set] sends one command and calls no factory. *)
Lemma set_counts (key : string) (value : JsValue) (options : CacheOptions) (st : State) :
  computes (set key value options st) = computes st /\
  commands (set key value options st) = S (commands st).
Proof.
  unfold Cache.set, redis_setex.
  destruct (backend_fails (commands st)); [split; reflexivity |].
  destruct (_ <=? 0)%Z; split; reflexivity.
Qed.

(** An accepted [SETEX] with a positive time to live: the serialised value
    is under the prefixed key, live until the expiry. *)
Lemma set_stores (key : string) (value : JsValue) (options : CacheOptions) (st : State) :
  backend_fails (commands st) = false ->
  (0 < effective_ttl options)%Z ->
  let st' := set key value options st in
  keyspace (server st') !! (keyPrefix +:+ buildKey key (namespace options)) =
    Some (JSON_stringify value, (time (server st) + effective_ttl options)%Z) /\
  live (server st') (keyPrefix +:+ buildKey key (namespace options)) =
    Some (JSON_stringify value) /\
  time (server st') = time (server st).
Proof.
  intros H Httl. unfold Cache.set, redis_setex. rewrite H.
  fold (effective_ttl options).
  destruct (Z.leb_spec (effective_ttl options) 0) as [Hle | _]; [lia |].
  cbn. unfold live. cbn. rewrite lookup_insert_eq.
  destruct (Z.ltb_spec (time (server st)) (time (server st) + effective_ttl options)); [| lia].
  repeat split.
Qed.

(** [set] either leaves the server as it is or stores the serialised
    value. *)
Lemma set_keeps_or_stores (key : string) (value : JsValue) (options : CacheOptions) (st : State) :
  let k := keyPrefix +:+ buildKey key (namespace options) in
  let st' := set key value options st in
  server st' = server st \/
  (keyspace (server st') !! k
     = Some (JSON_stringify value, (time (server st) + effective_ttl options)%Z) /\
   live (server st') k = Some (JSON_stringify value)).
Proof.
  intros k st'.
  destruct (backend_fails (commands st)) eqn:Hb.
  - left. subst st'. now rewrite set_backend_failure.
  - destruct (Z.leb_spec (effective_ttl options) 0) as [Hle | Hlt].
    + left. subst st'. unfold Cache.set, redis_setex. rewrite Hb.
      fold (effective_ttl options).
      rewrite (proj2 (Z.leb_le _ _) Hle). reflexivity.
    + right. destruct (set_stores key value options st Hb Hlt) as (H1 & H2 & _).
      split; assumption.
Qed.

(** [getOrSet] after a miss: the factory is called once; its value is
    handed to [set] and returned, its failure is re-raised. *)
Lemma getOrSet_after_miss (key : string) (factory : Factory)
    (options : CacheOptions) (st : State) :
  fst (get key (namespace options) st) = JNull ->
  getOrSet key factory options st =
    match factory (computes st) with
    | Returned value =>
        (Returned value,
         set key value options (snd (call factory (sent (server st) st))))
    | Threw e => (Threw e, snd (call factory (sent (server st) st)))
    end.
Proof.
  intros Hmiss.
  pose proof (get_sends_one_command key (namespace options) st) as Hst.
  unfold Cache.getOrSet.
  destruct (get key (namespace options) st) as [cached st1].
  cbn [fst snd] in Hmiss, Hst. subst cached st1. cbn [is_null negb].
  unfold call. cbn [computes sent snd].
  destruct (factory (computes st)); reflexivity.
Qed.

(** C9: after a miss, [getOrSet] calls the factory once. A value it
    returns is passed to [set] and returned to the caller, and is in the
    cache when the backend takes the write; a failure it raises reaches the
    caller. A backend failure inside [get] gives the miss, inside [set] it
    changes nothing, and neither raises. *)
Theorem C9_getOrSet_on_miss (key : string) (factory : Factory)
    (options : CacheOptions) (st : State) :
  fst (get key (namespace options) st) = JNull ->
  match factory (computes st) with
  | Returned value =>
      exists st',
        getOrSet key factory options st = (Returned value, st') /\
        computes st' = S (computes st) /\
        st' = set key value options (snd (call factory (sent (server st) st))) /\
        (backend_fails (S (commands st)) = false ->
         (0 < effective_ttl options)%Z ->
         live (server st') (keyPrefix +:+ buildKey key (namespace options))
           = Some (JSON_stringify value)) /\
        (backend_fails (S (commands st)) = true -> server st' = server st)
  | Threw e =>
      exists st',
        getOrSet key factory options st = (Threw e, st') /\
        computes st' = S (computes st) /\
        server st' = server st
  end /\
  (forall k ns s, backend_fails (commands s) = true ->
     get k ns s = (JNull, sent (server s) s)) /\
  (forall k v o s, backend_fails (commands s) = true ->
     set k v o s = sent (server s) s).
Proof.
  intros Hmiss.
  split; [| split].
  - rewrite (getOrSet_after_miss key factory options st Hmiss).
    destruct (factory (computes st)) as [value | e].
    + eexists. split; [reflexivity |].
      split; [| split; [| split]].
      * now rewrite (proj1 (set_counts _ _ _ _)).
      * reflexivity.
      * intros Hup Httl. apply set_stores; assumption.
      * intros Hdown. rewrite set_backend_failure by exact Hdown. reflexivity.
    + eexists. split; [reflexivity |]. split; reflexivity.
  - intros k ns s Hdown. rewrite (surjective_pairing (get k ns s)).
    now rewrite get_backend_failure, get_sends_one_command.
  - intros k v o s Hdown. now apply set_backend_failure.
Qed.

(** C10: [get] answers [null] for a key that is absent, for a key past its
    expiry, when the backend fails, and for a payload that parses to
    [null]. So when the factory's value serialises to the text of [null]
    and the key is absent or holds that text, [getOrSet] takes the miss,
    calls the factory again and writes the same text again: the key stays
    in that condition, and the next call does the same. *)
Theorem C10_null_is_a_miss (key : string) (options : CacheOptions) (st : State) :
  let ns := namespace options in
  let k := keyPrefix +:+ buildKey key ns in
  (keyspace (server st) !! k = None -> fst (get key ns st) = JNull) /\
  (forall payload expiresAt,
     keyspace (server st) !! k = Some (payload, expiresAt) ->
     (expiresAt <= time (server st))%Z ->
     fst (get key ns st) = JNull) /\
  (backend_fails (commands st) = true -> fst (get key ns st) = JNull) /\
  (forall payload,
     live (server st) k = Some payload ->
     JSON_parse payload = Some JNull ->
     fst (get key ns st) = JNull) /\
  (forall (factory : Factory) (value : JsValue),
     factory (computes st) = Returned value ->
     JSON_stringify value = "null" ->
     live (server st) k = None \/ live (server st) k = Some "null" ->
     exists st',
       getOrSet key factory options st = (Returned value, st') /\
       computes st' = S (computes st) /\
       st' = set key value options (snd (call factory (sent (server st) st))) /\
       (backend_fails (S (commands st)) = false ->
        (0 < effective_ttl options)%Z ->
        keyspace (server st') !! k
          = Some ("null", (time (server st) + effective_ttl options)%Z)) /\
       (live (server st') k = None \/ live (server st') k = Some "null")).
Proof.
  intros ns k.
  assert (Habsent : live (server st) k = None -> fst (get key ns st) = JNull).
  { intros Hl. destruct (backend_fails (commands st)) eqn:Hb.
    - now apply get_backend_failure.
    - rewrite get_of_live by exact Hb. fold k. now rewrite Hl. }
  assert (Hnull : forall payload, live (server st) k = Some payload ->
                    JSON_parse payload = Some JNull -> fst (get key ns st) = JNull).
  { intros payload Hl Hp. destruct (backend_fails (commands st)) eqn:Hb.
    - now apply get_backend_failure.
    - rewrite get_of_live by exact Hb. fold k. rewrite Hl, Hp.
      destruct (String.eqb payload EmptyString); reflexivity. }
  split; [| split; [| split; [| split]]].
  - intros Hk. apply Habsent. unfold live. now rewrite Hk.
  - intros payload expiresAt Hk Hexp. apply Habsent. unfold live. rewrite Hk.
    destruct (Z.ltb_spec (time (server st)) expiresAt); [lia | reflexivity].
  - apply get_backend_failure.
  - exact Hnull.
  - intros factory value Hf Hs Hinv.
    assert (Hmiss : fst (get key (namespace options) st) = JNull).
    { destruct Hinv as [Hl | Hl]; [now apply Habsent |].
      apply (Hnull "null" Hl). apply JSON_parse_null. }
    pose proof (getOrSet_after_miss key factory options st Hmiss) as Hrun.
    rewrite Hf in Hrun.
    set (st' := set key value options (snd (call factory (sent (server st) st)))) in *.
    assert (Hst' : st' = set key value options (snd (call factory (sent (server st) st))))
      by reflexivity.
    exists st'. split; [exact Hrun |].
    split; [subst st'; now rewrite (proj1 (set_counts _ _ _ _)) |].
    split; [exact Hst' |].
    pose proof (set_keeps_or_stores key value options
                  (snd (call factory (sent (server st) st)))) as Hset.
    cbn zeta in Hset. rewrite <- Hst', Hs in Hset. fold ns in Hset. fold k in Hset.
    cbn [call snd server sent time] in Hset.
    split.
    + intros Hup Httl.
      destruct (set_stores key value options (snd (call factory (sent (server st) st))))
        as (Hk & _); [exact Hup | exact Httl |].
      rewrite <- Hst', Hs in Hk. exact Hk.
    + destruct Hset as [Hsame | [_ Hl]].
      * rewrite Hsame. exact Hinv.
      * right. exact Hl.
Qed.


End CacheAside.

(** [DEL]: the named keys are gone, the others keep their entries. *)
Lemma del_keys_spec (ks : list string) :
  forall srv : Server,
    time (snd (del_keys ks srv)) = time srv /\
    forall k, keyspace (snd (del_keys ks srv)) !! k =
              if decide (k ∈ ks) then None else keyspace srv !! k.
Proof.
  induction ks as [| k0 ks IH]; intros srv.
  - split; [reflexivity |]. intros k. cbn. case_decide as H; [| reflexivity].
    now apply elem_of_nil in H.
  - cbn [del_keys].
    destruct (del_keys ks _) as [n srv'] eqn:Hd.
    specialize (IH {| keyspace := base.delete k0 (keyspace srv); time := time srv |}).
    rewrite Hd in IH. cbn [snd] in *. destruct IH as [Ht Hk].
    split; [exact Ht |]. intros k. rewrite Hk. cbn [keyspace].
    destruct (decide (k = k0)) as [-> | Hne].
    + rewrite lookup_delete_eq.
      rewrite (decide_True (P := k0 ∈ k0 :: ks)) by (left).
      now case_decide.
    + rewrite lookup_delete_ne by congruence.
      destruct (decide (k ∈ ks)) as [Hin | Hnin].
      * now rewrite (decide_True (P := k ∈ k0 :: ks)) by (now right).
      * rewrite (decide_False (P := k ∈ k0 :: ks)); [reflexivity |].
        intros [-> | Hin]%elem_of_cons; [congruence | contradiction].
Qed.

(** [DEL] of distinct live keys counts them all. *)
Lemma del_keys_count (ks : list string) :
  forall srv : Server,
    NoDup ks ->
    (forall k, k ∈ ks -> is_Some (live srv k)) ->
    fst (del_keys ks srv) = List.length ks.
Proof.
  induction ks as [| k0 ks IH]; intros srv Hnd Hlive; [reflexivity |].
  cbn [del_keys].
  apply NoDup_cons in Hnd as [Hnotin Hnd].
  specialize (IH {| keyspace := base.delete k0 (keyspace srv); time := time srv |} Hnd).
  destruct (del_keys ks _) as [n srv'] eqn:Hd. cbn [fst] in *.
  destruct (Hlive k0 ltac:(left)) as [p ->].
  rewrite IH; [reflexivity |].
  intros k Hin. unfold live. cbn [keyspace time].
  rewrite lookup_delete_ne by (intros ->; contradiction).
  apply (Hlive k). now right.
Qed.

Section PlainClient.
Context {json : Json}.
Variable backend_fails : nat -> bool.
Hypothesis healthy : forall n, backend_fails n = false.

(** [get] on a client without key prefix, backend replying. *)
Lemma get_plain (key : string) (ns : option string) (st : State) :
  fst (get EmptyString backend_fails key ns st) =
    match live (server st) (buildKey key ns) with
    | Some payload =>
        if String.eqb payload EmptyString then JNull
        else match JSON_parse payload with Some v => v | None => JNull end
    | None => JNull
    end.
Proof.
  unfold get, redis_get. rewrite healthy. cbn.
  destruct (live _ _) as [payload |]; cbn; [| reflexivity].
  destruct (String.eqb payload EmptyString); cbn; [reflexivity |].
  destruct (JSON_parse payload); reflexivity.
Qed.

(** On a client without key prefix the pattern deletion does what the
    description says: matching keys are gone, the others keep their
    entries, and the count is the number of keys deleted. *)
Lemma deletePattern_plain_client (pattern : string) (ns : option string) (st : State) :
  let result := deletePattern EmptyString backend_fails pattern ns st in
  let matches k := glob (buildKey pattern ns) k in
  (forall key, matches (buildKey key ns) = true ->
     fst (get EmptyString backend_fails key ns (snd result)) = JNull) /\
  (forall key, matches (buildKey key ns) = false ->
     fst (get EmptyString backend_fails key ns (snd result)) =
     fst (get EmptyString backend_fails key ns st)) /\
  fst result =
    List.length (List.filter (fun k => match live (server st) k with
                                       | Some _ => matches k
                                       | None => false
                                       end)
                             (map fst (map_to_list (keyspace (server st))))).
Proof.
  intros result matches.
  set (keys := List.filter (fun k => match live (server st) k with
                                     | Some _ => matches k
                                     | None => false
                                     end)
                           (map fst (map_to_list (keyspace (server st))))).
  assert (Hkeys : forall k, k ∈ keys <->
                    is_Some (live (server st) k) /\ matches k = true).
  { intros k. unfold keys. rewrite list_elem_of_In, filter_In, <- list_elem_of_In.
    split.
    - intros [_ H]. destruct (live (server st) k); [| discriminate]. split; [eauto | exact H].
    - intros [[p Hp] Hm]. rewrite Hp. split; [| exact Hm].
      apply list_elem_of_fmap. unfold live in Hp.
      destruct (keyspace (server st) !! k) as [[p' e] |] eqn:Hk; [| discriminate].
      exists (k, (p', e)). split; [reflexivity |]. now apply elem_of_map_to_list. }
  assert (Hnd : NoDup keys).
  { unfold keys. apply NoDup_ListNoDup, List.NoDup_filter, NoDup_ListNoDup.
    apply NoDup_fst_map_to_list. }
  assert (Hrun : result =
                 if Nat.eqb (List.length keys) 0 then (0, sent (server st) st)
                 else (fst (del_keys keys (server st)),
                       sent (snd (del_keys keys (server st))) (sent (server st) st))).
  { subst result. unfold deletePattern, redis_keys. rewrite healthy.
    change (List.filter _ _) with keys.
    destruct (Nat.eqb (List.length keys) 0); [reflexivity |].
    unfold redis_del. cbn [commands sent]. rewrite healthy.
    replace (map (fun k0 => EmptyString +:+ k0) keys) with keys
      by (symmetry; apply map_id).
    cbn [server sent]. now destruct (del_keys keys (server st)). }
  assert (Hlive : forall k,
             live (server (snd result)) k =
             if matches k then None else live (server st) k).
  { intros k. rewrite Hrun.
    destruct (Nat.eqb_spec (List.length keys) 0) as [Hz | Hnz].
    - cbn [snd server sent].
      destruct (matches k) eqn:Hm; [| reflexivity].
      destruct (live (server st) k) eqn:Hl; [| reflexivity].
      assert (k ∈ keys) as Hin by (apply Hkeys; split; [rewrite Hl; eauto | exact Hm]).
      destruct keys; [now apply elem_of_nil in Hin | discriminate].
    - destruct (del_keys_spec keys (server st)) as [Ht Hk].
      cbn [snd server sent]. unfold live. rewrite Hk, Ht.
      destruct (decide (k ∈ keys)) as [Hin | Hnin].
      + apply Hkeys in Hin as [_ ->]. reflexivity.
      + destruct (matches k) eqn:Hm; [| reflexivity].
        destruct (keyspace (server st) !! k) as [[p e] |] eqn:Hks; [| reflexivity].
        destruct (time (server st) <? e)%Z eqn:Hlt; [| reflexivity].
        exfalso. apply Hnin, Hkeys. split; [| exact Hm].
        unfold live. rewrite Hks, Hlt. eauto. }
  split; [| split].
  - intros key Hm. rewrite get_plain, Hlive, Hm. reflexivity.
  - intros key Hm. rewrite !get_plain, Hlive, Hm. reflexivity.
  - rewrite Hrun.
    destruct (Nat.eqb_spec (List.length keys) 0) as [Hz | Hnz]; [now rewrite Hz |].
    cbn [fst]. apply del_keys_count; [exact Hnd |].
    intros k Hin. now apply Hkeys in Hin.
Qed.
End PlainClient.

(** C4: the service writes "list:all" in namespace "tasks", which the
    client stores under "cache:tasks:list:all". [deletePattern] of "list:*"
    in that namespace asks the server for the keys matching "tasks:list:*";
    none does, so it deletes nothing and returns 0, and the entry is still
    read back. A pattern that does reach the key ("*list:*") gets the
    server's name of the key in reply, which the client prefixes again on
    deletion: nothing is deleted either. *)
Lemma C4_deletePattern_leaves_the_list_entry :
  let st1 := cache_with_list in
  let r := deletePattern service_keyPrefix never_fails "list:*" (Some "tasks") st1 in
  let r' := deletePattern service_keyPrefix never_fails "*list:*" None st1 in
  glob (buildKey "list:*" (Some "tasks")) (buildKey "list:all" (Some "tasks")) = true /\
  map fst (map_to_list (keyspace (server st1))) = ["cache:tasks:list:all"] /\
  fst (Cache.get service_keyPrefix never_fails "list:all" (Some "tasks") st1) = task_page /\
  fst (redis_keys never_fails "tasks:list:*" st1) = Returned [] /\
  fst r = 0 /\
  fst (Cache.get service_keyPrefix never_fails "list:all" (Some "tasks") (snd r)) = task_page /\
  fst (redis_keys never_fails "*list:*" st1) = Returned ["cache:tasks:list:all"] /\
  fst r' = 0 /\
  fst (Cache.get service_keyPrefix never_fails "list:all" (Some "tasks") (snd r')) = task_page.
Proof. vm_compute. repeat split. Qed.

(** C9 (witness): a first read of the task list through the cache. *)
Lemma C9_getOrSet_on_miss_witness :
  exists st',
    Cache.getOrSet service_keyPrefix never_fails "list:all" page_factory list_options
                   empty_state = (Returned task_page, st') /\
    computes st' = 1 /\
    live (server st') "cache:tasks:list:all" = Some (JSON_stringify task_page).
Proof.
  assert (Hmiss : fst (Cache.get service_keyPrefix never_fails "list:all"
                                 (namespace list_options) empty_state) = JNull)
    by (vm_compute; reflexivity).
  destruct (C9_getOrSet_on_miss service_keyPrefix never_fails "list:all" page_factory
              list_options empty_state Hmiss) as [H _].
  change (page_factory (computes empty_state)) with (Returned (A := JsValue) task_page) in H.
  cbv beta iota in H.
  destruct H as (st' & Hrun & Hc & _ & Hlive & _).
  exists st'. split; [exact Hrun |]. split; [exact Hc |].
  apply Hlive; [reflexivity | vm_compute; reflexivity].
Defined.

(** C10 (witness): a factory whose value is [null], on an empty cache. *)
Lemma C10_null_is_a_miss_witness :
  exists st',
    Cache.getOrSet service_keyPrefix never_fails "stats:global" null_factory list_options
                   empty_state = (Returned JNull, st') /\
    computes st' = 1 /\
    keyspace (server st') !! "cache:tasks:stats:global" = Some ("null", 180%Z).
Proof.
  destruct (C10_null_is_a_miss service_keyPrefix never_fails "stats:global" list_options
              empty_state) as (_ & _ & _ & _ & H).
  destruct (H null_factory JNull eq_refl eq_refl (or_introl eq_refl))
    as (st' & Hrun & Hc & _ & Hk & _).
  exists st'. split; [exact Hrun |]. split; [exact Hc |].
  apply Hk; [reflexivity | vm_compute; reflexivity].
Defined.

End CacheSpec.

(** * Further properties *)

(** ** The job processor: outcomes of [process] *)

Module WorkerProps.

Import Worker Views Samples Scenarios.


(** A text that holds [p] still holds it after any text is put before. *)
Lemma includes_app_r (a b p : string) :
  includes b p = true -> includes (a +:+ b) p = true.
Proof.
  intros H. induction a as [| x a IH]; [exact H |].
  simpl. rewrite IH. apply orb_true_r.
Qed.

Lemma startsWith_empty (s : string) : startsWith s EmptyString = true.
Proof. destruct s; reflexivity. Qed.

Lemma startsWith_sep (c : ascii) (p : string) :
  includes p (String c EmptyString) = false ->
  forall a b, startsWith (a +:+ String c b) p = startsWith a p.
Proof.
  induction p as [| k p IH]; intros Hc a b; [destruct a; reflexivity |].
  simpl in Hc.
  apply orb_false_iff in Hc as [Hk Hp].
  rewrite startsWith_empty, andb_true_r in Hk.
  assert (Hkc : Ascii.eqb k c = false) by (now rewrite Ascii.eqb_sym).
  destruct a as [| x a]; simpl.
  - now rewrite Hkc.
  - now rewrite (IH Hp).
Qed.

(** A text cut by a character that [p] does not contain holds [p] exactly
    when one of the two sides does. *)
Lemma includes_sep (c : ascii) (p : string) :
  p <> EmptyString ->
  includes p (String c EmptyString) = false ->
  forall a b, includes (a +:+ String c b) p = includes a p || includes b p.
Proof.
  intros Hne Hc a b. induction a as [| x a IH].
  - pose proof (startsWith_sep c p Hc EmptyString b) as Hs.
    simpl in *. rewrite Hs.
    destruct p; [contradiction | reflexivity].
  - pose proof (startsWith_sep c p Hc (String x a) b) as Hs.
    simpl in *. rewrite Hs, IH.
    now rewrite orb_assoc.
Qed.

(** The guarded block touches the table only: counters, log and clock
    readings are as before. *)
Lemma dispatch_frame (job : Job) (st : State) :
  jobMetrics (snd (dispatch job st)) = jobMetrics st /\
  logs (snd (dispatch job st)) = logs st /\
  reads (snd (dispatch job st)) = reads st.
Proof.
  unfold dispatch. destruct (validateJobData job) as [[] errors]; cbn [negb];
    [| repeat split].
  destruct (data job) as [d |]; [| repeat split].
  repeat match goal with
         | |- context [if ?b then _ else _] => destruct b
         end; try (repeat split; fail).
  unfold handleStatusUpdate.
  repeat match goal with
         | |- context [if ?b then _ else _] => destruct b
         end; try (repeat split; fail).
  destruct (updateStatus _ _ _) as [[t | e] d']; repeat split.
Qed.

(** X1: every execution is counted once. A job that completes adds one to
    [processed] and its processing time (the second clock reading minus
    the first) to the total; a job that fails adds one to [failed] and
    nothing else. *)
Theorem process_counts_one_outcome (clock : Clock) (job : Job) (st : State) :
  let m := jobMetrics st in
  let elapsed := (clock (S (reads st)) - clock (reads st))%Z in
  match process clock job st with
  | (Returned r, st') =>
      success r = true /\ processingTime r = elapsed /\
      jobMetrics st' = {| processed := S (processed m); failed := failed m;
                          totalProcessingTime := (totalProcessingTime m + elapsed)%Z |}
  | (Threw e, st') =>
      jobMetrics st' = {| processed := processed m; failed := S (failed m);
                          totalProcessingTime := totalProcessingTime m |}
  end.
Proof.
  intros m elapsed. unfold process. cbn [Date_now].
  set (s0 := log _ _).
  destruct (dispatch_frame job s0) as (Hm & _ & Hr).
  destruct (dispatch job s0) as [[r | e] s1]; cbn [snd] in Hm, Hr; cbn [Date_now].
  - cbn [set_metrics log jobMetrics reads]. rewrite Hm, Hr. subst s0. cbn.
    repeat split.
  - repeat match goal with
           | |- context [if ?b then _ else _] => destruct b
           end; cbn [set_metrics log jobMetrics reads]; rewrite Hm; subst s0; reflexivity.
Qed.


(** What [process] returns once the guarded block has returned. *)
Lemma process_returns (clock : Clock) (job : Job) (st st1 : State) (r : HandlerResult) :
  dispatch job (log (LogProcessing (contextOf job)) (snd (Date_now clock st))) = (Returned r, st1) ->
  exists pr st',
    process clock job st = (Returned pr, st') /\
    success pr = true /\ result pr = r /\ db st' = db st1.
Proof.
  intros H. unfold process. cbn [Date_now snd] in *. rewrite H. cbn.
  eexists; eexists. repeat split.
Qed.

(** What [process] raises once the guarded block has thrown. *)
Lemma process_throws (clock : Clock) (job : Job) (st st1 : State) (e : Thrown) :
  dispatch job (log (LogProcessing (contextOf job)) (snd (Date_now clock st))) = (Threw e, st1) ->
  exists st', process clock job st = (Threw e, st') /\ db st' = db st1.
Proof.
  intros H. unfold process. cbn [Date_now snd] in *. rewrite H. cbn.
  repeat match goal with |- context [if ?b then _ else _] => destruct b end;
    eexists; (split; reflexivity).
Qed.

(** X3: a creation notification with a task id, and an overdue notification
    with task id, title and due date, always complete; they neither read
    nor write the task table, so an outage of the table does not fail
    them. *)
Theorem notification_jobs_complete (clock : Clock) (job : Job) (d : JobData) (st : State) :
  data job = Some d ->
  truthy (taskId d) = true ->
  name job = "task-created" \/
  (name job = "overdue-tasks-notification" /\
   truthy (data_title d) = true /\ truthy (data_dueDate d) = true) ->
  exists pr st',
    process clock job st = (Returned pr, st') /\
    success pr = true /\
    db st' = db st /\
    result pr = (if String.eqb (name job) "task-created"
                 then CreationProcessed (taskId d) (data_status d)
                 else OverdueProcessed (taskId d) (overdueBy d)).
Proof.
  intros Hd Hid Hkind.
  set (s0 := log (LogProcessing (contextOf job)) (snd (Date_now clock st))).
  assert (Hdisp : dispatch job s0 =
                  (Returned (if String.eqb (name job) "task-created"
                             then CreationProcessed (taskId d) (data_status d)
                             else OverdueProcessed (taskId d) (overdueBy d)), s0)).
  { unfold dispatch, validateJobData. rewrite Hd.
    destruct Hkind as [-> | (-> & Ht & Hdue)]; cbn; rewrite Hid; cbn.
    - reflexivity.
    - rewrite Ht, Hdue. reflexivity. }
  destruct (process_returns clock job st s0 _ Hdisp) as (pr & st' & Hp & Hs & Hr & Hdb).
  exists pr, st'. repeat split; assumption.
Qed.

(** X3 (witness): the creation notification for the sample task, on an
    empty table. *)
Lemma notification_jobs_complete_witness :
  exists pr st',
    process sample_clock created_job (initial_state empty_db) = (Returned pr, st') /\
    success pr = true /\
    db st' = empty_db.
Proof.
  destruct (notification_jobs_complete sample_clock created_job
              (mkJobData (Some "t-1") (Some "PENDING") None None None None None)
              (initial_state empty_db) eq_refl eq_refl (or_introl eq_refl))
    as (pr & st' & Hrun & Hs & Hdb & _).
  exists pr, st'. split; [exact Hrun |]. split; [exact Hs | exact Hdb].
Defined.

Lemma filter_with_status_hit (tid new_status : string) (ts : list Task) (t : Task) :
  In t ts -> id t = tid ->
  exists u rest,
    base.filter (fun t => String.eqb (id t) tid = true) (with_status tid new_status ts)
      = u :: rest /\
    id u = tid /\ status u = new_status.
Proof.
  induction ts as [| x ts IH]; intros Hin Hid; [contradiction |].
  cbn [with_status map]. destruct (String.eqb (id x) tid) eqn:Hx.
  - rewrite filter_cons_True by (cbn; exact Hx).
    eexists; eexists. split; [reflexivity |]. cbn.
    apply String.eqb_eq in Hx. split; [exact Hx | reflexivity].
  - rewrite filter_cons_False by (cbn; rewrite Hx; discriminate).
    destruct Hin as [-> | Hin]; [rewrite Hid, String.eqb_refl in Hx; discriminate |].
    apply IH; assumption.
Qed.

Lemma filter_hit_nonempty (tid : string) (ts : list Task) (t : Task) :
  In t ts -> id t = tid ->
  List.length (base.filter (fun t => String.eqb (id t) tid = true) ts) <> 0.
Proof.
  induction ts as [| x ts IH]; intros Hin Hid; [contradiction |].
  destruct (String.eqb (id x) tid) eqn:Hx.
  - rewrite filter_cons_True by exact Hx. discriminate.
  - rewrite filter_cons_False by (rewrite Hx; discriminate).
    destruct Hin as [-> | Hin]; [rewrite Hid, String.eqb_refl in Hx; discriminate |].
    apply IH; assumption.
Qed.

Lemma filter_miss_empty (tid : string) (ts : list Task) :
  (forall t, In t ts -> id t <> tid) ->
  base.filter (fun t => String.eqb (id t) tid = true) ts = [].
Proof.
  induction ts as [| x ts IH]; intros Hno; [reflexivity |].
  rewrite filter_cons_False.
  - apply IH. intros t Ht. apply Hno. now right.
  - intros Hx. apply String.eqb_eq in Hx. apply (Hno x); [now left | exact Hx].
Qed.

(** X4: a status update for a task of the table, with the table up, sets
    the status of the rows with that id and of no other row, and reports
    the task with its new status. *)
Theorem status_update_applies (clock : Clock) (job : Job) (d : JobData) (st : State)
    (tid new_status : string) (t : Task) :
  name job = "task-status-update" ->
  data job = Some d ->
  taskId d = Some tid -> tid <> EmptyString ->
  data_status d = Some new_status -> new_status <> EmptyString ->
  outage (db st) = None ->
  In t (rows (db st)) -> id t = tid ->
  exists pr st' task_title,
    process clock job st = (Returned pr, st') /\
    success pr = true /\
    result pr = StatusUpdated tid (previousStatus d) new_status task_title /\
    rows (db st') = with_status tid new_status (rows (db st)) /\
    List.length (rows (db st')) = List.length (rows (db st)).
Proof.
  intros Hname Hd Htid Hne Hst Hne' Hup Hin Hid.
  assert (Htt : truthy (Some tid) = true).
  { cbn. destruct (String.eqb_spec tid EmptyString); [contradiction | reflexivity]. }
  assert (Hts : truthy (Some new_status) = true).
  { cbn. destruct (String.eqb_spec new_status EmptyString); [contradiction | reflexivity]. }
  set (s0 := log (LogProcessing (contextOf job)) (snd (Date_now clock st))).
  destruct (filter_with_status_hit tid new_status (rows (db st)) t Hin Hid)
    as (u & rest & Hf & Hu1 & Hu2).
  assert (Hdisp : dispatch job s0 =
                  (Returned (StatusUpdated tid (previousStatus d) new_status (title u)),
                   set_db (mkDb (with_status tid new_status (rows (db st))) None) s0)).
  { unfold dispatch, validateJobData. rewrite Hd, Hname. cbn [String.eqb Ascii.eqb Bool.eqb].
    rewrite Htid, Hst, Htt, Hts. cbn [app List.length Nat.eqb negb].
    unfold handleStatusUpdate. rewrite Htid, Hst, Htt, Hts. cbn [negb get_or_empty].
    unfold updateStatus. change (db s0) with (db st). rewrite Hup.
    destruct (Nat.eqb_spec
                (List.length (base.filter (fun t0 => String.eqb (id t0) tid = true)
                                          (rows (db st)))) 0) as [Hz | _].
    { exfalso. exact (filter_hit_nonempty tid _ t Hin Hid Hz). }
    fold (with_status tid new_status (rows (db st))). rewrite Hf, Hu1, Hu2. reflexivity. }
  destruct (process_returns clock job st _ _ Hdisp) as (pr & st' & Hp & Hs & Hr & Hdb).
  exists pr, st', (title u). split; [exact Hp |]. split; [exact Hs |].
  split; [exact Hr |]. rewrite Hdb. cbn [set_db db rows].
  split; [reflexivity |]. unfold with_status. apply length_map.
Qed.

(** X4 (witness): the sample task is completed. *)
Lemma status_update_applies_witness :
  exists pr st',
    process sample_clock completion_job (initial_state overdue_db) = (Returned pr, st') /\
    result pr = StatusUpdated "t-1" (Some "PENDING") "COMPLETED" "Write report" /\
    rows (db st') = [mkTask "t-1" "Write report" 1699990000000 "COMPLETED" "u-1"].
Proof.
  assert (Hid : "t-1" <> EmptyString) by discriminate.
  assert (Hst : "COMPLETED" <> EmptyString) by discriminate.
  assert (Hin : In report_task (rows (db (initial_state overdue_db)))) by (left; reflexivity).
  destruct (status_update_applies sample_clock completion_job
              (mkJobData (Some "t-1") (Some "COMPLETED") (Some "PENDING") None None None None)
              (initial_state overdue_db) "t-1" "COMPLETED" report_task
              eq_refl eq_refl eq_refl Hid eq_refl Hst eq_refl Hin eq_refl)
    as (pr & st' & task_title & Hrun & _ & Hres & Hrows & _).
  exists pr, st'. split; [exact Hrun |].
  assert (Hrun' : process sample_clock completion_job (initial_state overdue_db)
                  = (Returned pr, st')) by exact Hrun.
  vm_compute in Hrun'. injection Hrun' as <- <-.
  split; reflexivity.
Defined.


(** The text that [handleStatusUpdate] puts around the task id holds no
    infrastructure signal, and no signal runs across a blank: the wrapped
    message has such a signal exactly when the id or the cause has one. *)
Lemma wrapped_infrastructure_signals (tid cause : string) :
  signals infrastructure_signals
          ("Failed to update task " +:+ tid +:+ " status: " +:+ cause)
  = signals infrastructure_signals tid || signals infrastructure_signals cause.
Proof.
  assert (H : forall p, In p infrastructure_signals ->
            includes ("Failed to update task " +:+ tid +:+ " status: " +:+ cause) p
            = includes tid p || includes cause p).
  { intros p Hp.
    change ("Failed to update task " +:+ tid +:+ " status: " +:+ cause)
      with ("Failed to update task" +:+ String " " (tid +:+ String " " ("status:" +:+ String " " cause))).
    cbn in Hp.
    repeat (destruct Hp as [<- | Hp];
            [rewrite !includes_sep by (discriminate || reflexivity); cbn;
             now rewrite ?orb_false_r |]).
    destruct Hp. }
  unfold signals, infrastructure_signals. cbn [existsb].
  rewrite !H by (cbn; tauto).
  repeat match goal with |- context [includes ?a ?b] =>
           generalize (includes a b); intro end.
  repeat match goal with b : bool |- _ => destruct b end; reflexivity.
Qed.

(** X5: a status update for an id that is in no row fails with the message
    of [NotFoundException] wrapped by the handler and leaves the table as
    it is. Unless the id itself carries an infrastructure signal, the
    failure is classified client and non-retryable. *)
Theorem status_update_of_missing_task (clock : Clock) (job : Job) (d : JobData) (st : State)
    (tid new_status : string) :
  name job = "task-status-update" ->
  data job = Some d ->
  taskId d = Some tid -> tid <> EmptyString ->
  data_status d = Some new_status -> new_status <> EmptyString ->
  outage (db st) = None ->
  (forall t, In t (rows (db st)) -> id t <> tid) ->
  let e := new_Error ("Failed to update task " +:+ tid +:+ " status: Task not found") in
  exists st',
    process clock job st = (Threw e, st') /\
    db st' = db st /\
    (signals infrastructure_signals tid = false ->
     category (categorizeError e (contextOf job)) = "client" /\
     isRetryable (categorizeError e (contextOf job)) = false).
Proof.
  intros Hname Hd Htid Hne Hst Hne' Hup Hno e.
  assert (Htt : truthy (Some tid) = true).
  { cbn. destruct (String.eqb_spec tid EmptyString); [contradiction | reflexivity]. }
  assert (Hts : truthy (Some new_status) = true).
  { cbn. destruct (String.eqb_spec new_status EmptyString); [contradiction | reflexivity]. }
  set (s0 := log (LogProcessing (contextOf job)) (snd (Date_now clock st))).
  assert (Hdisp : dispatch job s0 = (Threw e, set_db (db st) s0)).
  { unfold dispatch, validateJobData. rewrite Hd, Hname. cbn [String.eqb Ascii.eqb Bool.eqb].
    rewrite Htid, Hst, Htt, Hts. cbn [app List.length Nat.eqb negb].
    unfold handleStatusUpdate. rewrite Htid, Hst, Htt, Hts. cbn [negb get_or_empty].
    unfold updateStatus. change (db s0) with (db st). rewrite Hup.
    rewrite (filter_miss_empty tid _ Hno). reflexivity. }
  destruct (process_throws clock job st _ e Hdisp) as (st' & Hp & Hdb).
  exists st'. split; [exact Hp |]. split.
  - rewrite Hdb. reflexivity.
  - intros Hclean. rewrite WorkerSpec.categorizeError_cases.
    cbn [message_or_unknown e new_Error].
    change ("Failed to update task " +:+ tid +:+ " status: Task not found")
      with ("Failed to update task " +:+ tid +:+ " status: " +:+ "Task not found").
    rewrite wrapped_infrastructure_signals, Hclean. cbn [orb].
    change (signals infrastructure_signals "Task not found") with false.
    destruct (signals validation_signals _); [split; reflexivity |].
    assert (signals notfound_signals
              ("Failed to update task " +:+ tid +:+ " status: " +:+ "Task not found") = true) as ->.
    { unfold signals, notfound_signals. cbn [existsb].
      rewrite (includes_app_r "Failed to update task " (tid +:+ " status: " +:+ "Task not found"));
        [reflexivity |].
      apply includes_app_r. reflexivity. }
    split; reflexivity.
Qed.

(** X5 (witness): a status update for the id "t-9" on the table that holds
    "t-1" only. *)
Lemma status_update_of_missing_task_witness :
  exists st',
    process sample_clock stale_job (initial_state overdue_db)
      = (Threw (new_Error "Failed to update task t-9 status: Task not found"), st') /\
    db st' = overdue_db /\
    isRetryable (categorizeError (new_Error "Failed to update task t-9 status: Task not found")
                                 (contextOf stale_job)) = false.
Proof.
  assert (Hid : "t-9" <> EmptyString) by discriminate.
  assert (Hst : "COMPLETED" <> EmptyString) by discriminate.
  assert (Hno : forall t, In t (rows (db (initial_state overdue_db))) -> id t <> "t-9").
  { intros t [<- | []]. discriminate. }
  destruct (status_update_of_missing_task sample_clock stale_job
              (mkJobData (Some "t-9") (Some "COMPLETED") None None None None None)
              (initial_state overdue_db) "t-9" "COMPLETED"
              eq_refl eq_refl eq_refl Hid eq_refl Hst eq_refl Hno)
    as (st' & Hrun & Hdb & Hclass).
  exists st'. split; [exact Hrun |]. split; [exact Hdb |].
  exact (proj2 (Hclass eq_refl)).
Defined.

(** X6: while the table is out with a message that carries an
    infrastructure signal, every validated status update fails with that
    message wrapped, classified infrastructure and retryable. *)
Theorem status_update_during_outage (clock : Clock) (job : Job) (d : JobData) (st : State)
    (tid new_status msg : string) :
  name job = "task-status-update" ->
  data job = Some d ->
  taskId d = Some tid -> tid <> EmptyString ->
  data_status d = Some new_status -> new_status <> EmptyString ->
  outage (db st) = Some msg ->
  signals infrastructure_signals msg = true ->
  let e := new_Error ("Failed to update task " +:+ tid +:+ " status: " +:+ msg) in
  exists st',
    process clock job st = (Threw e, st') /\
    type (categorizeError e (contextOf job)) = "DatabaseError" /\
    category (categorizeError e (contextOf job)) = "infrastructure" /\
    isRetryable (categorizeError e (contextOf job)) = true.
Proof.
  intros Hname Hd Htid Hne Hst Hne' Hout Hsig e.
  assert (Htt : truthy (Some tid) = true).
  { cbn. destruct (String.eqb_spec tid EmptyString); [contradiction | reflexivity]. }
  assert (Hts : truthy (Some new_status) = true).
  { cbn. destruct (String.eqb_spec new_status EmptyString); [contradiction | reflexivity]. }
  set (s0 := log (LogProcessing (contextOf job)) (snd (Date_now clock st))).
  assert (Hdisp : dispatch job s0 = (Threw e, set_db (db st) s0)).
  { unfold dispatch, validateJobData. rewrite Hd, Hname. cbn [String.eqb Ascii.eqb Bool.eqb].
    rewrite Htid, Hst, Htt, Hts. cbn [app List.length Nat.eqb negb].
    unfold handleStatusUpdate. rewrite Htid, Hst, Htt, Hts. cbn [negb get_or_empty].
    unfold updateStatus. change (db s0) with (db st). rewrite Hout. reflexivity. }
  destruct (process_throws clock job st _ e Hdisp) as (st' & Hp & _).
  exists st'. split; [exact Hp |].
  rewrite WorkerSpec.categorizeError_cases. cbn [message_or_unknown e new_Error].
  rewrite wrapped_infrastructure_signals, Hsig, orb_true_r. repeat split.
Qed.

(** X6 (witness): the completion of the sample task while the connection
    to the table is lost. *)
Lemma status_update_during_outage_witness :
  exists st',
    process sample_clock completion_job (initial_state db_down)
      = (Threw (new_Error
                  "Failed to update task t-1 status: connection terminated unexpectedly"),
         st') /\
    isRetryable (categorizeError
                   (new_Error
                      "Failed to update task t-1 status: connection terminated unexpectedly")
                   (contextOf completion_job)) = true.
Proof.
  assert (Hid : "t-1" <> EmptyString) by discriminate.
  assert (Hst : "COMPLETED" <> EmptyString) by discriminate.
  assert (Hsig : signals infrastructure_signals "connection terminated unexpectedly" = true)
    by reflexivity.
  destruct (status_update_during_outage sample_clock completion_job
              (mkJobData (Some "t-1") (Some "COMPLETED") (Some "PENDING") None None None None)
              (initial_state db_down) "t-1" "COMPLETED" "connection terminated unexpectedly"
              eq_refl eq_refl eq_refl Hid eq_refl Hst eq_refl Hsig)
    as (st' & Hrun & _ & _ & Hre).
  exists st'. split; [exact Hrun | exact Hre].
Defined.

(** X2: a job that fails validation is refused before any handler runs:
    [process] raises the validation error with the table untouched,
    counts one failure, and the classifier marks the error
    ValidationError, client and non-retryable, whatever the job. *)
Theorem malformed_job_is_refused (clock : Clock) (job : Job) (st : State) :
  fst (validateJobData job) = false ->
  exists st',
    process clock job st = (Threw (validation_error job), st') /\
    db st' = db st /\
    failed (jobMetrics st') = S (failed (jobMetrics st)) /\
    processed (jobMetrics st') = processed (jobMetrics st) /\
    forall ctx,
      let info := categorizeError (validation_error job) ctx in
      type info = "ValidationError" /\ category info = "client" /\ isRetryable info = false.
Proof.
  intros Hinv.
  destruct (WorkerSpec.validation_failure job Hinv) as [Hd Hc].
  set (s0 := log (LogProcessing (contextOf job)) (snd (Date_now clock st))).
  destruct (WorkerSpec.process_rethrows clock job st _ _ (Hd s0)) as (st' & Hrun & Hf & Hp).
  destruct (process_throws clock job st _ _ (Hd s0)) as (st'' & Hrun' & Hdb).
  rewrite Hrun in Hrun'. injection Hrun' as <-.
  exists st'. split; [exact Hrun |]. split; [exact Hdb |].
  split; [exact Hf |]. split; [exact Hp |].
  intros ctx info. destruct (Hc ctx) as [Hty Hre]. subst info.
  split; [exact Hty |]. split; [| exact Hre].
  revert Hty. rewrite WorkerSpec.categorizeError_cases.
  repeat match goal with |- context [if ?b then _ else _] => destruct b end;
    cbn; intros Hty; try discriminate Hty; reflexivity.
Qed.

(** X2 (witness): the status update without a task id. *)
Lemma malformed_job_is_refused_witness :
  exists st',
    process sample_clock invalid_status_job (initial_state overdue_db)
      = (Threw (validation_error invalid_status_job), st') /\
    db st' = overdue_db.
Proof.
  destruct (malformed_job_is_refused sample_clock invalid_status_job
              (initial_state overdue_db) eq_refl)
    as (st' & Hrun & Hdb & _).
  exists st'. split; [exact Hrun | exact Hdb].
Defined.

(** X7: the classifier's retry flag follows its category: a failure is
    retryable exactly when it is not classified client, and the
    classification carries the failure's message. A thrown value that is
    no [Error] is classified from the text "Unknown error": UnknownError,
    unknown, retryable, whatever the value shows. *)
Theorem classification_retryable_unless_client (error : Thrown) (ctx : JobContext) :
  let info := categorizeError error ctx in
  isRetryable info = negb (String.eqb (category info) "client") /\
  message info = message_or_unknown error /\
  (forall shown, error = NonError shown ->
     message info = "Unknown error" /\ type info = "UnknownError" /\
     category info = "unknown" /\ isRetryable info = true).
Proof.
  intros info. subst info. split; [| split].
  - rewrite WorkerSpec.categorizeError_cases.
    repeat match goal with |- context [if ?b then _ else _] => destruct b end; reflexivity.
  - rewrite WorkerSpec.categorizeError_cases.
    repeat match goal with |- context [if ?b then _ else _] => destruct b end; reflexivity.
  - intros shown ->. vm_compute. repeat split.
Qed.

End WorkerProps.

(** ** The overdue scanner: what a scan enqueues and reports *)

Module ScannerProps.

Import Scanner Views Samples Scenarios.

Section Batch.
Variables (cfg : Config) (clock : Clock) (add_fails : nat -> bool).

Lemma enqueue_one_counts (task : Task) (q : nat) (f : list string) (st : State) :
  exists f' st',
    enqueue_one cfg clock add_fails task (q, f) st
      = ((q + accepted_among add_fails (adds st) 1, f'), st') /\
    adds st' = S (adds st).
Proof.
  unfold enqueue_one, calculateOverdueDuration, Queue_add, accepted_among. cbn.
  destruct (0 <? _)%Z; cbn; destruct (add_fails (adds st)); cbn;
    eexists; eexists; (split; [do 2 f_equal; lia | reflexivity]).
Qed.

Lemma accepted_among_S (k n : nat) :
  accepted_among add_fails k (S n) =
  accepted_among add_fails k 1 + accepted_among add_fails (S k) n.
Proof.
  unfold accepted_among. cbn [seq List.filter].
  destruct (negb (add_fails k)); reflexivity.
Qed.

Lemma enqueue_all_counts (tasks : list Task) :
  forall (q : nat) (f : list string) (st : State),
  exists f' st',
    enqueue_all cfg clock add_fails tasks (q, f) st
      = ((q + accepted_among add_fails (adds st) (List.length tasks), f'), st') /\
    adds st' = adds st + List.length tasks.
Proof.
  induction tasks as [| task rest IH]; intros q f st.
  - exists f, st. unfold accepted_among. cbn [enqueue_all List.length seq List.filter].
    rewrite !Nat.add_0_r. split; reflexivity.
  - destruct (enqueue_one_counts task q f st) as (f1 & st1 & H1 & Ha1).
    destruct (IH (q + accepted_among add_fails (adds st) 1) f1 st1) as (f2 & st2 & H2 & Ha2).
    exists f2, st2. cbn [enqueue_all]. rewrite H1, H2. cbn [List.length].
    rewrite (accepted_among_S (adds st) (List.length rest)), Ha1.
    split; [| lia]. do 2 f_equal. lia.
Qed.

(** The count [processBatch] returns and the calls it makes. *)
Lemma processBatch_counts (tasks : list Task) (st : State) :
  fst (processBatch cfg clock add_fails tasks st)
    = accepted_among add_fails (adds st) (List.length tasks) /\
  adds (snd (processBatch cfg clock add_fails tasks st)) = adds st + List.length tasks.
Proof.
  unfold processBatch.
  destruct (enqueue_all_counts tasks 0 [] st) as (f' & st' & H & Ha).
  rewrite H. cbn [fst snd Nat.add]. split; [reflexivity | exact Ha].
Qed.

(** X8: [processBatch] calls [Queue.add] once for every task of the page,
    whatever the earlier calls did, and returns the number of calls the
    queue accepted; it is the page length when no call is rejected and
    never more. *)
Theorem processBatch_counts_accepted (tasks : list Task) (st : State) :
  let r := processBatch cfg clock add_fails tasks st in
  fst r = accepted_among add_fails (adds st) (List.length tasks) /\
  adds (snd r) = adds st + List.length tasks /\
  fst r <= List.length tasks /\
  ((forall n, add_fails n = false) -> fst r = List.length tasks).
Proof.
  intros r. subst r.
  destruct (processBatch_counts tasks st) as [Hq Ha].
  split; [exact Hq |]. split; [exact Ha |]. rewrite Hq.
  unfold accepted_among. split.
  - etransitivity; [apply List.filter_length_le |]. now rewrite length_seq.
  - intros Hnf. rewrite List.forallb_filter_id; [apply length_seq |].
    apply forallb_forall. intros i _. now rewrite Hnf.
Qed.

End Batch.

Lemma accepted_among_add (add_fails : nat -> bool) (k a b : nat) :
  accepted_among add_fails k (a + b) =
  accepted_among add_fails k a + accepted_among add_fails (k + a) b.
Proof.
  unfold accepted_among. now rewrite seq_app, List.filter_app, length_app.
Qed.

Lemma accepted_among_le (add_fails : nat -> bool) (k n : nat) :
  accepted_among add_fails k n <= n.
Proof.
  unfold accepted_among. etransitivity; [apply List.filter_length_le |].
  now rewrite length_seq.
Qed.

Lemma accepted_among_all (add_fails : nat -> bool) (k n : nat) :
  (forall i, add_fails i = false) -> accepted_among add_fails k n = n.
Proof.
  intros Hnf. unfold accepted_among.
  rewrite List.forallb_filter_id; [apply length_seq |].
  apply forallb_forall. intros i _. now rewrite Hnf.
Qed.

Section Totals.
Variables (cfg : Config) (clock : Clock) (add_fails : nat -> bool).
Variables (d : Db) (now : Z).
Hypothesis Hup : outage d = None.
Hypothesis HB : 0 < BATCH_SIZE cfg.

Local Abbreviation B := (BATCH_SIZE cfg).
Local Abbreviation total := (List.length (matching now d)).

(** The loop finds every matching row from [offset] on and counts the
    enqueues the queue accepted. *)
Lemma scan_loop_totals (fuel : nat) :
  forall (tp tq offset : nat) (st : State),
    (total - offset) / B < fuel ->
    exists st',
      scan_loop cfg (processBatch cfg clock add_fails) fuel d now tp tq offset st
        = Some (Returned (tp + (total - offset),
                          tq + accepted_among add_fails (adds st) (total - offset)), st') /\
      adds st' = adds st + (total - offset).
Proof.
  induction fuel as [| fuel IH]; intros tp tq offset st Hfuel; [lia |].
  destruct (ScannerSpec.find_page cfg d now Hup offset) as (page & Hfind & Hlen).
  fold B total in Hlen.
  cbn [scan_loop]. rewrite Hfind. fold B.
  destruct (Nat.eqb_spec (List.length page) 0) as [Hz | Hnz].
  - assert (total - offset = 0) as -> by lia.
    eexists. split.
    + unfold accepted_among. cbn [seq List.filter List.length]. now rewrite !Nat.add_0_r.
    + cbn [emit adds]. lia.
  - set (s1 := emit (EvFetch offset B (List.length page)) st).
    destruct (processBatch_counts cfg clock add_fails page s1) as (Hq & Ha).
    destruct (processBatch cfg clock add_fails page s1) as [q st1]. cbn [fst snd] in Hq, Ha.
    change (adds s1) with (adds st) in Hq, Ha.
    destruct (Nat.ltb_spec (List.length page) B) as [Hshort | Hfull].
    + assert (List.length page = total - offset) as Hl by lia.
      eexists. split; [rewrite Hq, Hl; reflexivity |]. rewrite Ha. lia.
    + assert (List.length page = B) as Hl by lia.
      destruct (ScannerSpec.page_plan_full cfg d now HB offset) as [_ Hdiv]; [fold B total; lia |].
      fold B total in Hdiv.
      destruct (IH (tp + List.length page) (tq + q) (offset + B) st1) as (st' & Hrun & Ha').
      { lia. }
      assert (E1 : tp + List.length page + (total - (offset + B)) = tp + (total - offset))
        by lia.
      assert (E2 : tq + q + accepted_among add_fails (adds st1) (total - (offset + B))
                   = tq + accepted_among add_fails (adds st) (total - offset)).
      { rewrite Ha, Hq, Hl.
        replace (total - offset) with (B + (total - (offset + B))) by lia.
        rewrite accepted_among_add. lia. }
      exists st'. rewrite Hrun, E1, E2. split; [reflexivity |].
      rewrite Ha', Ha. lia.
Qed.

End Totals.

(** X9: the manual trigger reports every matching row as processed, whether
    or not its enqueue was accepted, and as queued the number of enqueues
    the queue accepted: all of them when none is rejected, never more than
    the rows found. *)
Theorem trigger_reports_totals (cfg : Config) (clock : Clock) (add_fails : nat -> bool)
    (d : Db) (st : State) (fuel : nat) :
  0 < BATCH_SIZE cfg ->
  outage d = None ->
  let total := List.length (matching (clock (S (reads st))) d) in
  total / BATCH_SIZE cfg < fuel ->
  exists queued st',
    triggerOverdueCheck cfg clock add_fails fuel d st = Some ((total, queued), st') /\
    queued = accepted_among add_fails (adds st) total /\
    queued <= total /\
    ((forall n, add_fails n = false) -> queued = total) /\
    adds st' = adds st + total.
Proof.
  intros HB Hup total Hfuel.
  set (now := clock (S (reads st))) in *.
  set (s0 := {| queue := queue st; reads := S (S (reads st)); adds := adds st;
                trace := trace st; captured := captured st |}).
  destruct (scan_loop_totals cfg clock add_fails d now Hup HB fuel 0 0 0 s0)
    as (st1 & Hloop & Ha).
  { rewrite Nat.sub_0_r. exact Hfuel. }
  rewrite Nat.sub_0_r in Hloop, Ha. fold total in Hloop, Ha. cbn [Nat.add] in Hloop.
  pose proof (ScannerSpec.scan_loop_counting cfg clock add_fails d now fuel 0 0 0 (0, 0) s0)
    as Hsim.
  rewrite Hloop in Hsim. destruct Hsim as (Hsim & _ & _).
  cbn [fst snd Nat.add] in Hsim. rewrite !Nat.sub_0_r in Hsim.
  exists (accepted_among add_fails (adds st) total). eexists.
  unfold triggerOverdueCheck, checkOverdueTasks. cbn [Date_now].
  change (clock (reads (set_captured (0, 0) st))) with (clock (reads st)).
  cbn [set_captured reads queue adds trace captured].
  fold now. fold s0.
  change {| queue := queue st; reads := S (S (reads st)); adds := adds st;
            trace := trace st; captured := (0, 0) |} with (set_captured (0, 0) s0).
  rewrite Hsim. cbn [Date_now emit set_captured captured reads queue adds trace].
  split; [reflexivity |]. split; [reflexivity |].
  split; [apply accepted_among_le |].
  split; [intros Hnf; now apply accepted_among_all |].
  exact Ha.
Qed.

(** X9 (witness): the manual trigger over the table of 150 overdue tasks,
    on a queue that rejects every third enqueue. *)
Lemma trigger_reports_totals_witness :
  exists st',
    triggerOverdueCheck defaults sample_clock every_third_fails 3 backlog_db initial_state
      = Some ((150, 100), st').
Proof.
  assert (HB : 0 < BATCH_SIZE defaults) by (cbn; lia).
  assert (Hup : outage backlog_db = None) by reflexivity.
  assert (Htotal : List.length (matching (sample_clock (S (reads initial_state))) backlog_db)
                   = 150) by (vm_compute; reflexivity).
  assert (Hfuel : List.length (matching (sample_clock (S (reads initial_state))) backlog_db)
                  / BATCH_SIZE defaults < 3) by (rewrite Htotal; vm_compute; lia).
  assert (Hacc : accepted_among every_third_fails 0 150 = 100) by (vm_compute; reflexivity).
  destruct (trigger_reports_totals defaults sample_clock every_third_fails backlog_db
              initial_state 3 HB Hup Hfuel) as (queued & st' & Hrun & Hq & _).
  exists st'. rewrite Htotal in Hrun, Hq.
  change (adds initial_state) with 0 in Hq. rewrite Hacc in Hq. subst queued.
  exact Hrun.
Defined.


Lemma In_insert_by_dueDate (t u : Task) (l : list Task) :
  In u (insert_by_dueDate t l) -> u = t \/ In u l.
Proof.
  induction l as [| x l IH]; cbn.
  - intros [<- | []]. now left.
  - destruct (dueDate t <=? dueDate x)%Z; cbn.
    + intros [<- | H]; [now left | now right].
    + intros [<- | H]; [right; now left |].
      destruct (IH H) as [-> | H']; [now left | right; now right].
Qed.

Lemma In_matching (now : Z) (d : Db) (t : Task) :
  In t (matching now d) -> In t (rows d) /\ is_overdue now t = true.
Proof.
  unfold matching, sort_by_dueDate.
  induction (rows d) as [| x l IH]; cbn [List.filter foldr]; [intros [] |].
  destruct (is_overdue now x) eqn:Hx; cbn [foldr].
  - intros H. apply In_insert_by_dueDate in H as [-> | H].
    + split; [now left | exact Hx].
    + destruct (IH H) as [H1 H2]. split; [now right | exact H2].
  - intros H. destruct (IH H) as [H1 H2]. split; [now right | exact H2].
Qed.

Section Enqueued.
Variables (cfg : Config) (clock : Clock) (add_fails : nat -> bool).

Lemma enqueue_one_queue (task : Task) (acc : nat * list string) (st : State) :
  forall j, In j (queue (snd (enqueue_one cfg clock add_fails task acc st))) ->
            In j (queue st) \/ notification_of cfg task j.
Proof.
  destruct acc as [q f]. intros j.
  unfold enqueue_one, calculateOverdueDuration, Queue_add. cbn.
  destruct (0 <? _)%Z; cbn; destruct (add_fails (adds st)); cbn;
    try (intros H; now left);
    destruct (existsb _ (queue st)); cbn; try (intros H; now left);
    rewrite in_app_iff; (intros [H | [<- | []]]; [now left | right; repeat split]).
Qed.

Lemma enqueue_all_queue (tasks : list Task) :
  forall (acc : nat * list string) (st : State) (j : QueuedJob),
    In j (queue (snd (enqueue_all cfg clock add_fails tasks acc st))) ->
    In j (queue st) \/ exists t, In t tasks /\ notification_of cfg t j.
Proof.
  induction tasks as [| task rest IH]; intros acc st j; cbn [enqueue_all].
  - intros H. now left.
  - pose proof (enqueue_one_queue task acc st j) as H1.
    destruct (enqueue_one cfg clock add_fails task acc st) as [acc1 st1]. cbn [snd] in H1.
    intros H. destruct (IH acc1 st1 j H) as [Hq | (t & Ht & Hn)].
    + destruct (H1 Hq) as [Hq' | Hn]; [now left |].
      right. exists task. split; [now left | exact Hn].
    + right. exists t. split; [now right | exact Hn].
Qed.

Lemma processBatch_queue (tasks : list Task) (st : State) (j : QueuedJob) :
  In j (queue (snd (processBatch cfg clock add_fails tasks st))) ->
  In j (queue st) \/ exists t, In t tasks /\ notification_of cfg t j.
Proof.
  unfold processBatch.
  pose proof (enqueue_all_queue tasks (0, []) st j) as H.
  destruct (enqueue_all cfg clock add_fails tasks (0, []) st) as [[q f] st1]. exact H.
Qed.

Lemma scan_loop_queue (d : Db) (now : Z) (fuel : nat) :
  forall (tp tq offset : nat) (st : State),
    match scan_loop cfg (processBatch cfg clock add_fails) fuel d now tp tq offset st with
    | Some (_, st') =>
        forall j, In j (queue st') ->
          In j (queue st) \/
          exists t, In t (rows d) /\ is_overdue now t = true /\ notification_of cfg t j
    | None => True
    end.
Proof.
  induction fuel as [| fuel IH]; intros tp tq offset st; [exact I |].
  cbn [scan_loop]. unfold find.
  destruct (outage d); [intros j H; now left |].
  set (page := firstn (BATCH_SIZE cfg) (skipn offset (matching now d))).
  assert (Hpage : forall t, In t page -> In t (rows d) /\ is_overdue now t = true).
  { intros t Ht. apply In_matching. subst page.
    apply list_elem_of_In. apply list_elem_of_In in Ht.
    apply (subseteq_drop offset), (subseteq_take (BATCH_SIZE cfg)). exact Ht. }
  destruct (Nat.eqb (List.length page) 0); [intros j H; now left |].
  set (s1 := emit _ st).
  pose proof (processBatch_queue page s1) as Hpb.
  destruct (processBatch cfg clock add_fails page s1) as [q st1]. cbn [snd] in Hpb.
  assert (Hstep : forall j, In j (queue st1) ->
            In j (queue st) \/
            exists t, In t (rows d) /\ is_overdue now t = true /\ notification_of cfg t j).
  { intros j Hj. destruct (Hpb j Hj) as [H | (t & Ht & Hn)]; [now left |].
    right. exists t. destruct (Hpage t Ht). split; [assumption | split; assumption]. }
  destruct (List.length page <? BATCH_SIZE cfg); [exact Hstep |].
  specialize (IH (tp + List.length page) (tq + q) (offset + BATCH_SIZE cfg) st1).
  destruct (scan_loop _ _ _ _ _ _ _ _ st1) as [[c st'] |]; [| exact I].
  intros j Hj. destruct (IH j Hj) as [H | H]; [apply Hstep; exact H | now right].
Qed.

(** X11: a scan puts on the queue only overdue notifications for rows of the
    table that are due before the scan's [now] and pending or in progress:
    the payload is the row's, with three attempts, exponential backoff
    from five seconds and priority 10. A completed task or a task due
    later is never enqueued. *)
Theorem scan_enqueues_only_overdue_rows (d : Db) (st : State) (fuel : nat) :
  match checkOverdueTasks cfg clock (processBatch cfg clock add_fails) fuel d st with
  | Some st' =>
      forall j, In j (queue st') ->
        In j (queue st) \/
        exists t, In t (rows d) /\
                  is_overdue (clock (S (reads st))) t = true /\
                  notification_of cfg t j
  | None => True
  end.
Proof.
  unfold checkOverdueTasks. cbn [Date_now].
  match goal with |- context [scan_loop _ _ _ _ _ _ _ _ ?s] => set (s0 := s) end.
  pose proof (scan_loop_queue d (clock (S (reads st))) fuel 0 0 0 s0) as H.
  cbn [reads] in *.
  destruct (scan_loop _ _ _ _ _ _ _ _ s0) as [[[[tp tq] | e] st1] |]; [| | exact I];
    cbn [Date_now emit queue]; exact H.
Qed.

End Enqueued.

(** X12: the rendering of the delay, by the time elapsed since the due date:
    under an hour, "0 hour"; from one hour, "1 hour"; from two hours, the
    hours in the plural; from 24 hours, "1 day"; from 48 hours, the days in
    the plural. For a due date after the clock reading the count of hours
    is negative and the unit in the singular. *)
Theorem overdue_duration_by_delay (clock : Clock) (due : Z) (st : State) :
  let delay := (clock (reads st) - due)%Z in
  let hour := (60 * 60 * 1000)%Z in
  fst (calculateOverdueDuration clock due st) =
    if (delay <? 0)%Z then pretty (delay / hour)%Z +:+ " hour"
    else if (delay <? hour)%Z then "0 hour"
    else if (delay <? 2 * hour)%Z then "1 hour"
    else if (delay <? 24 * hour)%Z then pretty (delay / hour)%Z +:+ " hours"
    else if (delay <? 48 * hour)%Z then "1 day"
    else pretty (delay / (24 * hour))%Z +:+ " days".
Proof.
  intros delay hour. unfold calculateOverdueDuration. cbn [Date_now]. fold delay.
  change (1000 * 60 * 60)%Z with hour.
  assert (Hh : hour = 3600000%Z) by reflexivity.
  assert (Hdd : (delay / hour / 24 = delay / (24 * hour))%Z).
  { rewrite Z.div_div by lia. now rewrite (Z.mul_comm hour 24). }
  pose proof (Z.div_mod delay hour ltac:(lia)) as Hdm.
  pose proof (Z.mod_pos_bound delay hour ltac:(lia)) as Hmb.
  pose proof (Z.div_mod delay (24 * hour) ltac:(lia)) as Hdm'.
  pose proof (Z.mod_pos_bound delay (24 * hour) ltac:(lia)) as Hmb'.
  rewrite Hdd.
  destruct (Z.ltb_spec delay 0).
  { assert (delay / (24 * hour) < 0)%Z by nia.
    assert (delay / hour < 0)%Z by nia.
    destruct (Z.ltb_spec 0 (delay / (24 * hour))); [lia |].
    destruct (Z.ltb_spec 1 (delay / hour)); [lia |]. reflexivity. }
  destruct (Z.ltb_spec delay hour).
  { assert (delay / hour = 0)%Z as -> by nia.
    assert (delay / (24 * hour) = 0)%Z as -> by nia. reflexivity. }
  destruct (Z.ltb_spec delay (2 * hour)).
  { assert (delay / hour = 1)%Z as -> by nia.
    assert (delay / (24 * hour) = 0)%Z as -> by nia. reflexivity. }
  destruct (Z.ltb_spec delay (24 * hour)).
  { assert (delay / (24 * hour) = 0)%Z as -> by nia.
    assert (1 < delay / hour)%Z by nia.
    cbn [Z.ltb Z.compare].
    destruct (Z.ltb_spec 1 (delay / hour)); [reflexivity | lia]. }
  destruct (Z.ltb_spec delay (48 * hour)).
  { assert (delay / (24 * hour) = 1)%Z as -> by nia. reflexivity. }
  assert (1 < delay / (24 * hour))%Z by nia.
  destruct (Z.ltb_spec 0 (delay / (24 * hour))); [| lia].
  destruct (Z.ltb_spec 1 (delay / (24 * hour))); [reflexivity | lia].
Qed.

(** X10: the manual trigger on a table that rejects its queries returns
    [(0, 0)] after the first fetch: the failure is logged inside
    [checkOverdueTasks] and not raised, no enqueue is attempted and the
    queue is as before. *)
Theorem trigger_survives_outage (cfg : Config) (clock : Clock) (add_fails : nat -> bool)
    (d : Db) (st : State) (fuel : nat) (msg : string) :
  outage d = Some msg ->
  exists st',
    triggerOverdueCheck cfg clock add_fails (S fuel) d st = Some ((0, 0), st') /\
    queue st' = queue st /\
    adds st' = adds st /\
    trace st' = trace st ++ [EvFetchFailed 0 (BATCH_SIZE cfg); EvFailed msg].
Proof.
  intros Hout. unfold triggerOverdueCheck, checkOverdueTasks.
  cbn [Date_now scan_loop]. unfold find. rewrite Hout. cbn [Date_now message_or_unknown].
  eexists. split; [reflexivity |]. split; [reflexivity |]. split; [reflexivity |].
  unfold emit, set_captured. cbn [trace]. now rewrite <- app_assoc.
Qed.

(** X10 (witness): the manual trigger while the connection to the table is
    lost. *)
Lemma trigger_survives_outage_witness :
  exists st',
    triggerOverdueCheck defaults sample_clock never_fails 1 db_down initial_state
      = Some ((0, 0), st') /\
    queue st' = [].
Proof.
  destruct (trigger_survives_outage defaults sample_clock never_fails db_down initial_state 0
              "connection terminated unexpectedly" eq_refl)
    as (st' & Hrun & Hq & _).
  exists st'. split; [exact Hrun | exact Hq].
Defined.

End ScannerProps.

(** ** The cache-aside layer: entries, expiry, deletion *)

Module CacheProps.

Import Cache CompactJson Samples Scenarios.


Section Entries.
Context {json : Json}.
Variables (keyPrefix : string) (backend_fails : nat -> bool).

Local Abbreviation get := (get keyPrefix backend_fails).
Local Abbreviation set := (set keyPrefix backend_fails).
Local Abbreviation getOrSet := (getOrSet keyPrefix backend_fails).
Local Abbreviation delete := (Cache.delete keyPrefix backend_fails).
Local Abbreviation exists_ := (Cache.exists_ keyPrefix backend_fails).

(** After a [set] that the backend takes, the entry is live for as many
    seconds as its time to live. *)
Lemma live_after_set (key : string) (value : JsValue) (options : CacheOptions)
    (st : State) (seconds : Z) :
  backend_fails (commands st) = false ->
  (0 < effective_ttl options)%Z ->
  live (server (elapse seconds (set key value options st)))
       (keyPrefix +:+ buildKey key (namespace options)) =
    if (seconds <? effective_ttl options)%Z then Some (JSON_stringify value) else None.
Proof.
  intros Hup Httl.
  destruct (CacheSpec.set_stores keyPrefix backend_fails key value options st Hup Httl)
    as (Hk & _ & Ht).
  unfold live, elapse. cbn [server keyspace time]. rewrite Hk, Ht.
  destruct (Z.ltb_spec seconds (effective_ttl options));
    destruct (Z.ltb_spec (time (server st) + seconds)
                         (time (server st) + effective_ttl options)); (reflexivity || lia).
Qed.

(** X13: an entry lives for its time to live and no longer. After a [set]
    that the backend takes, a [get] of the same key in the same namespace
    returns the value while fewer seconds than the time to live have
    passed, and the miss from then on, for every value that the codec
    reads back from a non-empty text; [exists] answers accordingly. *)
Theorem get_after_set (key : string) (value : JsValue) (options : CacheOptions)
    (st : State) (seconds : Z) :
  backend_fails (commands st) = false ->
  backend_fails (S (commands st)) = false ->
  (0 < effective_ttl options)%Z ->
  JSON_parse (JSON_stringify value) = Some value ->
  JSON_stringify value <> EmptyString ->
  let st' := elapse seconds (set key value options st) in
  fst (get key (namespace options) st') =
    (if (seconds <? effective_ttl options)%Z then value else JNull) /\
  fst (exists_ key (namespace options) st') = (seconds <? effective_ttl options)%Z.
Proof.
  intros Hup Hup' Httl Hrt Hne st'.
  pose proof (live_after_set key value options st seconds Hup Httl) as Hlive.
  fold st' in Hlive.
  assert (Hc : backend_fails (commands st') = false).
  { subst st'. cbn [elapse commands].
    now rewrite (proj2 (CacheSpec.set_counts keyPrefix backend_fails key value options st)). }
  split.
  - rewrite CacheSpec.get_of_live by exact Hc. rewrite Hlive.
    destruct (seconds <? effective_ttl options)%Z; [| reflexivity].
    rewrite Hrt. destruct (String.eqb_spec (JSON_stringify value) EmptyString);
      [contradiction | reflexivity].
  - unfold Cache.exists_, redis_exists. rewrite Hc. cbn [fst]. rewrite Hlive.
    destruct (seconds <? effective_ttl options)%Z; reflexivity.
Qed.

(** X14: the time to live asked of Redis. Without [ttl], or with a [ttl] of
    0, the entry expires 300 seconds after the write; with a negative
    [ttl] the write is refused by the server, nothing is stored and
    nothing is raised. *)
Theorem set_ttl_edges (key : string) (value : JsValue) (options : CacheOptions) (st : State) :
  backend_fails (commands st) = false ->
  let k := keyPrefix +:+ buildKey key (namespace options) in
  (ttl options = None \/ ttl options = Some 0%Z ->
   keyspace (server (set key value options st)) !! k
     = Some (JSON_stringify value, (time (server st) + 300)%Z)) /\
  (forall t, ttl options = Some t -> (t < 0)%Z ->
   server (set key value options st) = server st).
Proof.
  intros Hup k. split.
  - intros Hdef.
    assert (Heff : effective_ttl options = 300%Z)
      by (unfold effective_ttl; destruct Hdef as [-> | ->]; reflexivity).
    destruct (CacheSpec.set_stores keyPrefix backend_fails key value options st Hup)
      as (Hk & _); [lia |]. subst k. rewrite Hk, Heff. reflexivity.
  - intros t Ht Hneg. unfold Cache.set, redis_setex. rewrite Hup, Ht.
    destruct (Z.eqb_spec t 0); [lia |].
    destruct (Z.leb_spec t 0); [reflexivity | lia].
Qed.

(** [DEL] of one key. *)
Lemma delete_run (key : string) (ns : option string) (st : State) :
  backend_fails (commands st) = false ->
  let k := keyPrefix +:+ buildKey key ns in
  delete key ns st =
    (match live (server st) k with Some _ => true | None => false end,
     sent {| keyspace := base.delete k (keyspace (server st)); time := time (server st) |} st).
Proof.
  intros Hup k. unfold Cache.delete, redis_del. rewrite Hup. cbn.
  fold k. destruct (live (server st) k); reflexivity.
Qed.

(** X15: [delete] answers whether the key was there, and afterwards the key
    is gone while every other key keeps its entry; when the backend
    rejects the command it answers [false] and the key stays. *)
Theorem delete_removes_the_key (key : string) (ns : option string) (st : State) :
  let k := keyPrefix +:+ buildKey key ns in
  let r := delete key ns st in
  (backend_fails (commands st) = false ->
   (fst r = true <-> is_Some (live (server st) k)) /\
   keyspace (server (snd r)) !! k = None /\
   (forall k', k' <> k -> keyspace (server (snd r)) !! k' = keyspace (server st) !! k') /\
   fst (get key ns (snd r)) = JNull) /\
  (backend_fails (commands st) = true ->
   fst r = false /\ server (snd r) = server st).
Proof.
  intros k r. split.
  - intros Hup. subst r. rewrite (delete_run key ns st Hup). fold k. cbn [fst snd server sent keyspace].
    split; [| split; [| split]].
    + destruct (live (server st) k); split; intros H; try reflexivity; try discriminate.
      * eauto.
      * destruct H as [? H]; discriminate.
    + apply lookup_delete_eq.
    + intros k' Hne. now apply lookup_delete_ne.
    + destruct (backend_fails (S (commands st))) eqn:Hb.
      * now apply CacheSpec.get_backend_failure.
      * rewrite CacheSpec.get_of_live by exact Hb. fold k.
        unfold live. cbn [server sent keyspace]. now rewrite lookup_delete_eq.
  - intros Hdown. subst r. unfold Cache.delete, redis_del. rewrite Hdown. split; reflexivity.
Qed.

(** X16: on a hit [getOrSet] returns the cached value, does not call the
    factory and writes nothing. *)
Theorem getOrSet_on_hit (key : string) (factory : Factory) (options : CacheOptions)
    (st : State) (v : JsValue) :
  fst (get key (namespace options) st) = v ->
  v <> JNull ->
  getOrSet key factory options st = (Returned v, sent (server st) st) /\
  computes (snd (getOrSet key factory options st)) = computes st /\
  server (snd (getOrSet key factory options st)) = server st.
Proof.
  intros Hget Hnn.
  pose proof (CacheSpec.get_sends_one_command keyPrefix backend_fails key (namespace options) st)
    as Hst.
  assert (Hrun : getOrSet key factory options st = (Returned v, sent (server st) st)).
  { unfold Cache.getOrSet.
    destruct (get key (namespace options) st) as [cached st1]. cbn [fst snd] in *.
    subst cached st1. destruct v; try contradiction; reflexivity. }
  rewrite Hrun. repeat split.
Qed.

(** X17: with the backend down for every command, [getOrSet] still answers:
    it completes as the factory does, calls it once per call, and leaves
    the server as it is. *)
Theorem getOrSet_fails_open (key : string) (factory : Factory) (options : CacheOptions)
    (st : State) :
  (forall n, backend_fails n = true) ->
  fst (getOrSet key factory options st) = factory (computes st) /\
  computes (snd (getOrSet key factory options st)) = S (computes st) /\
  server (snd (getOrSet key factory options st)) = server st.
Proof.
  intros Hdown.
  rewrite (CacheSpec.getOrSet_after_miss keyPrefix backend_fails key factory options st)
    by (apply CacheSpec.get_backend_failure, Hdown).
  destruct (factory (computes st)) as [value | e]; cbn [fst snd].
  - rewrite (proj1 (CacheSpec.set_counts _ _ _ _ _ _)).
    rewrite CacheSpec.set_backend_failure by apply Hdown.
    repeat split.
  - repeat split.
Qed.

End Entries.

(** X13 (witness): the task list one minute after it was cached for three
    minutes. *)
Lemma get_after_set_witness :
  fst (Cache.get service_keyPrefix never_fails "list:all" (Some "tasks")
         (elapse 60 cache_with_list)) = task_page /\
  fst (Cache.exists_ service_keyPrefix never_fails "list:all" (Some "tasks")
         (elapse 60 cache_with_list)) = true.
Proof.
  assert (Httl : (0 < effective_ttl list_options)%Z) by reflexivity.
  assert (Hrt : JSON_parse (JSON_stringify task_page) = Some task_page)
    by (vm_compute; reflexivity).
  assert (Hne : JSON_stringify task_page <> EmptyString) by (vm_compute; discriminate).
  exact (get_after_set service_keyPrefix never_fails "list:all" task_page list_options
           empty_state 60 eq_refl eq_refl Httl Hrt Hne).
Defined.

(** X14 (witness): a task cached without a time to live. *)
Lemma set_ttl_edges_witness :
  keyspace (server (Cache.set service_keyPrefix never_fails "task:t-1:admin" cached_task
                              plain_options empty_state))
    !! "cache:tasks:task:t-1:admin" = Some (JSON_stringify cached_task, 300%Z).
Proof.
  exact (proj1 (set_ttl_edges service_keyPrefix never_fails "task:t-1:admin" cached_task
                  plain_options empty_state eq_refl) (or_introl eq_refl)).
Defined.

(** X16 (witness): a second read of the cached task list. *)
Lemma getOrSet_on_hit_witness :
  Cache.getOrSet service_keyPrefix never_fails "list:all" null_factory list_options
                 cache_with_list
    = (Returned task_page, sent (server cache_with_list) cache_with_list).
Proof.
  assert (Hget : fst (Cache.get service_keyPrefix never_fails "list:all"
                                (namespace list_options) cache_with_list) = task_page)
    by (vm_compute; reflexivity).
  assert (Hnn : task_page <> JNull) by discriminate.
  exact (proj1 (getOrSet_on_hit service_keyPrefix never_fails "list:all" null_factory
                  list_options cache_with_list task_page Hget Hnn)).
Defined.

(** X17 (witness): a read of the task list while Redis is unreachable. *)
Lemma getOrSet_fails_open_witness :
  fst (Cache.getOrSet service_keyPrefix always_fails "list:all" page_factory list_options
                      empty_state) = Returned task_page /\
  server (snd (Cache.getOrSet service_keyPrefix always_fails "list:all" page_factory
                              list_options empty_state)) = server empty_state.
Proof.
  assert (Hdown : forall n, always_fails n = true) by (intros n; reflexivity).
  destruct (getOrSet_fails_open service_keyPrefix always_fails "list:all" page_factory
              list_options empty_state Hdown) as (Hr & _ & Hs).
  split; [exact Hr | exact Hs].
Defined.

(** A text whose first character is [x] has a colon where [x] is one or
    where the rest has one. *)
Lemma includes_colon_cons (x : ascii) (a : string) :
  includes (String x a) ":" = Ascii.eqb ":" x || includes a ":".
Proof.
  cbn [includes startsWith].
  destruct (Ascii.eqb ":" x); destruct a; reflexivity.
Qed.

(** A text without colon, a colon and a rest: the colon is the first one,
    so the two parts are determined. *)
Lemma colon_split (a a' b b' : string) :
  includes a ":" = false -> includes a' ":" = false ->
  a +:+ ":" +:+ b = a' +:+ ":" +:+ b' -> a = a' /\ b = b'.
Proof.
  assert (Hcons : forall x s r, String x s +:+ r = String x (s +:+ r)) by reflexivity.
  assert (Hnil : forall r, EmptyString +:+ r = r) by reflexivity.
  revert a'. induction a as [| x a IH]; intros [| x' a'] Ha Ha' H.
  - rewrite !Hnil, !Hcons, !Hnil in H. injection H as H. subst. split; reflexivity.
  - rewrite includes_colon_cons in Ha'. apply orb_false_iff in Ha' as [Ha' _].
    rewrite !Hnil, !Hcons, !Hnil in H. injection H as Hx H. subst x'.
    now rewrite Ascii.eqb_refl in Ha'.
  - rewrite includes_colon_cons in Ha. apply orb_false_iff in Ha as [Ha _].
    rewrite !Hnil, !Hcons, !Hnil in H. injection H as Hx H. subst x.
    now rewrite Ascii.eqb_refl in Ha.
  - rewrite includes_colon_cons in Ha, Ha'.
    apply orb_false_iff in Ha as [_ Ha]. apply orb_false_iff in Ha' as [_ Ha'].
    rewrite !Hcons in H. injection H as Hx H. subst x'.
    destruct (IH a' Ha Ha' H) as [-> ->]. split; reflexivity.
Qed.

(** X18: namespaces without a colon keep their keys apart: two final keys
    are equal only for the same namespace and the same key. An absent
    namespace and the empty one both leave the key as it is. *)
Theorem buildKey_separates_namespaces (key key' ns ns' : string) :
  ns <> EmptyString -> ns' <> EmptyString ->
  includes ns ":" = false -> includes ns' ":" = false ->
  (buildKey key (Some ns) = buildKey key' (Some ns') -> ns = ns' /\ key = key') /\
  buildKey key None = key /\ buildKey key (Some EmptyString) = key.
Proof.
  intros Hne Hne' Hc Hc'. split; [| split; reflexivity].
  unfold buildKey, truthy.
  destruct (String.eqb_spec ns EmptyString); [contradiction |].
  destruct (String.eqb_spec ns' EmptyString); [contradiction |].
  cbn [negb]. apply colon_split; assumption.
Qed.

(** X18 (witness): the same key in the namespaces of the tasks and of the
    users. *)
Lemma buildKey_separates_namespaces_witness :
  buildKey "stats:global" (Some "tasks") <> buildKey "stats:global" (Some "users") /\
  buildKey "stats:global" None = "stats:global".
Proof.
  assert (H1 : "tasks" <> EmptyString) by discriminate.
  assert (H2 : "users" <> EmptyString) by discriminate.
  destruct (buildKey_separates_namespaces "stats:global" "stats:global" "tasks" "users"
              H1 H2 eq_refl eq_refl) as (Hinj & Hnone & _).
  split; [| exact Hnone].
  intros E. destruct (Hinj E) as [Hns _]. discriminate Hns.
Defined.

End CacheProps.

(** ** Cache invalidation of the task service *)

Module TasksCacheProps.

Import Cache CompactJson TasksCache Samples Scenarios.


Section Invalidation.
Context {json : Json}.
Variables (keyPrefix : string) (backend_fails : nat -> bool).

Local Abbreviation issue := (issue keyPrefix backend_fails).
Local Abbreviation issue_all := (issue_all keyPrefix backend_fails).
Local Abbreviation settle := (settle keyPrefix backend_fails).
Local Abbreviation clearTaskCaches := (clearTaskCaches keyPrefix backend_fails).
Local Abbreviation get := (Cache.get keyPrefix backend_fails).

Lemma shrinks_refl (srv : Server) : shrinks srv srv.
Proof. split; [reflexivity | intros k; now right]. Qed.

Lemma shrinks_trans (a b c : Server) : shrinks a b -> shrinks b c -> shrinks a c.
Proof.
  intros [Ht1 H1] [Ht2 H2]. split; [congruence |].
  intros k. destruct (H2 k) as [E | E]; [now left |].
  rewrite E. apply H1.
Qed.

Lemma redis_del_shrinks (ks : list string) (st : State) :
  shrinks (server st) (server (snd (redis_del keyPrefix backend_fails ks st))).
Proof.
  unfold redis_del. destruct (backend_fails (commands st)); [apply shrinks_refl |].
  destruct (del_keys _ _) as [n srv] eqn:Hd. cbn [snd sent server].
  destruct (CacheSpec.del_keys_spec (map (fun k => keyPrefix +:+ k) ks) (server st))
    as [Ht Hk].
  rewrite Hd in Ht, Hk. cbn [snd] in Ht, Hk. split; [exact Ht |].
  intros k. rewrite Hk. case_decide; [now left | now right].
Qed.

Lemma redis_keys_server (p : string) (st : State) :
  server (snd (redis_keys backend_fails p st)) = server st.
Proof. unfold redis_keys. destruct (backend_fails (commands st)); reflexivity. Qed.

Lemma issue_shrinks (c : CacheCall) (st : State) :
  shrinks (server st) (server (snd (issue c st))).
Proof.
  destruct c as [key ns | pattern ns]; cbn [TasksCache.issue].
  - cbn [snd]. unfold Cache.delete.
    pose proof (redis_del_shrinks [buildKey key ns] st) as H.
    destruct (redis_del _ _ _ _) as [[r | e] st1]; exact H.
  - pose proof (redis_keys_server (buildKey pattern ns) st) as H.
    destruct (redis_keys _ _ _) as [[keys | e] st1]; cbn [snd] in *;
      rewrite H; apply shrinks_refl.
Qed.

Lemma issue_all_shrinks (cs : list CacheCall) :
  forall st, shrinks (server st) (server (snd (issue_all cs st))).
Proof.
  induction cs as [| c cs IH]; intros st; [apply shrinks_refl |].
  cbn [TasksCache.issue_all].
  pose proof (issue_shrinks c st) as H1.
  destruct (issue c st) as [pending st1]. cbn [snd] in H1.
  specialize (IH st1). destruct (issue_all cs st1) as [more st2]. cbn [snd] in *.
  eapply shrinks_trans; eassumption.
Qed.

Lemma settle_shrinks (pending : list (list string)) :
  forall st, shrinks (server st) (server (settle pending st)).
Proof.
  induction pending as [| keys rest IH]; intros st; [apply shrinks_refl |].
  cbn [TasksCache.settle].
  eapply shrinks_trans; [apply redis_del_shrinks | apply IH].
Qed.

Lemma clearTaskCaches_shrinks (uid tid : option string) (st : State) :
  shrinks (server st) (server (clearTaskCaches uid tid st)).
Proof.
  unfold TasksCache.clearTaskCaches.
  pose proof (issue_all_shrinks (cachePromises uid tid) st) as H.
  destruct (issue_all _ st) as [pending st1]. cbn [snd] in H.
  eapply shrinks_trans; [exact H | apply settle_shrinks].
Qed.

(** A key that is gone stays gone. *)
Lemma shrinks_gone (srv srv' : Server) (k : string) :
  shrinks srv srv' -> keyspace srv !! k = None -> keyspace srv' !! k = None.
Proof. intros [_ H] Hk. destruct (H k) as [E | E]; [exact E | congruence]. Qed.

Section Healthy.
Hypothesis healthy : forall n, backend_fails n = false.

Lemma issue_delete_gone (key : string) (ns : option string) (st : State) :
  keyspace (server (snd (issue (CallDelete key ns) st)))
    !! (keyPrefix +:+ buildKey key ns) = None.
Proof.
  cbn [TasksCache.issue snd]. unfold Cache.delete, redis_del. rewrite healthy.
  cbn. apply lookup_delete_eq.
Qed.

Lemma issue_all_gone (cs : list CacheCall) (key : string) (ns : option string) :
  forall st, In (CallDelete key ns) cs ->
    keyspace (server (snd (issue_all cs st))) !! (keyPrefix +:+ buildKey key ns) = None.
Proof.
  induction cs as [| c cs IH]; intros st Hin; [contradiction |].
  cbn [TasksCache.issue_all].
  destruct Hin as [-> | Hin].
  - pose proof (issue_delete_gone key ns st) as H.
    destruct (issue (CallDelete key ns) st) as [pending st1]. cbn [snd] in H.
    pose proof (issue_all_shrinks cs st1) as Hs.
    destruct (issue_all cs st1) as [more st2]. cbn [snd] in *.
    eapply shrinks_gone; eassumption.
  - destruct (issue c st) as [pending st1].
    specialize (IH st1 Hin). destruct (issue_all cs st1) as [more st2]. exact IH.
Qed.

(** Every entry that [clearTaskCaches] deletes by its name is a miss
    afterwards. *)
Lemma named_entries_miss (uid tid : option string) (key : string) (ns : option string)
    (st : State) :
  In (CallDelete key ns) (cachePromises uid tid) ->
  fst (get key ns (clearTaskCaches uid tid st)) = JNull.
Proof.
  intros Hin. rewrite CacheSpec.get_of_live by apply healthy.
  unfold live.
  assert (Hgone : keyspace (server (clearTaskCaches uid tid st))
                    !! (keyPrefix +:+ buildKey key ns) = None).
  { unfold TasksCache.clearTaskCaches.
    pose proof (issue_all_gone (cachePromises uid tid) key ns st Hin) as H.
    destruct (issue_all _ st) as [pending st1]. cbn [snd] in H.
    eapply shrinks_gone; [apply settle_shrinks | exact H]. }
  now rewrite Hgone.
Qed.

(** X19: after [clearTaskCaches] with the owner and the id of a task, on a
    backend that answers, the entries that [findOne] and
    [getTaskStatistics] write for the administrator and for the owner are
    misses: the next read of the task or of the counts goes to the
    table. *)
Theorem clearTaskCaches_invalidates_task_and_stats
    (owner id : string) (userRole : option string) (st : State) :
  owner <> EmptyString -> id <> EmptyString ->
  let st' := clearTaskCaches (Some owner) (Some id) st in
  let tasks := Some "tasks" in
  fst (get (findOne_cacheKey id (Some owner) userRole) tasks st') = JNull /\
  fst (get (getTaskStatistics_cacheKey (Some owner) userRole) tasks st') = JNull.
Proof.
  intros Ho Hi st' tasks. subst st' tasks.
  assert (To : truthy (Some owner) = true)
    by (unfold truthy; now destruct (String.eqb_spec owner EmptyString)).
  assert (Ti : truthy (Some id) = true)
    by (unfold truthy; now destruct (String.eqb_spec id EmptyString)).
  unfold findOne_cacheKey, getTaskStatistics_cacheKey.
  split; destruct (is_admin userRole); apply named_entries_miss;
    unfold cachePromises; rewrite To, Ti; cbn [template app In]; auto 10.
Qed.

End Healthy.

End Invalidation.

(** X19 (witness): the owner's entry of the task "t-1" is read from the
    cache before the invalidation and is a miss after it. *)
Lemma clearTaskCaches_invalidates_task_and_stats_witness :
  fst (Cache.get service_keyPrefix never_fails "task:t-1:user:u-1" (Some "tasks")
         cache_with_task) = cached_task /\
  fst (Cache.get service_keyPrefix never_fails "task:t-1:user:u-1" (Some "tasks")
         (clearTaskCaches service_keyPrefix never_fails (Some "u-1") (Some "t-1")
            cache_with_task)) = JNull.
Proof.
  assert (Hup : forall n, never_fails n = false) by (intros n; reflexivity).
  assert (Ho : "u-1" <> EmptyString) by discriminate.
  assert (Hi : "t-1" <> EmptyString) by discriminate.
  split; [vm_compute; reflexivity |].
  exact (proj1 (clearTaskCaches_invalidates_task_and_stats service_keyPrefix never_fails Hup
                  "u-1" "t-1" (Some "user") cache_with_task Ho Hi)).
Defined.

(** A pattern in the namespace of the tasks matches no key that carries
    the prefix of the service's client. *)
Lemma tasks_pattern_misses_prefixed (pattern k : string) :
  startsWith k service_keyPrefix = true ->
  glob (buildKey pattern (Some "tasks")) k = false.
Proof.
  intros Hk. destruct k as [| c k']; [discriminate Hk |].
  cbn [startsWith service_keyPrefix] in Hk.
  apply andb_true_iff in Hk as [Hc _]. apply Ascii.eqb_eq in Hc. subst c.
  reflexivity.
Qed.

Section ServiceClient.
Variable backend_fails : nat -> bool.

Local Abbreviation issue := (issue service_keyPrefix backend_fails).
Local Abbreviation issue_all := (issue_all service_keyPrefix backend_fails).
Local Abbreviation clearTaskCaches := (clearTaskCaches service_keyPrefix backend_fails).

Lemma written_by_shrinks (srv srv' : Server) :
  shrinks srv srv' -> written_by service_keyPrefix srv -> written_by service_keyPrefix srv'.
Proof.
  intros [_ H] Hw k Hk. apply Hw. destruct (H k) as [E | E].
  - rewrite E in Hk. destruct Hk; discriminate.
  - now rewrite <- E.
Qed.

Lemma filter_none {A : Type} (f : A -> bool) (l : list A) :
  (forall x, In x l -> f x = false) -> List.filter f l = [].
Proof.
  induction l as [| x l IH]; intros H; [reflexivity |].
  cbn [List.filter]. rewrite (H x (or_introl eq_refl)).
  apply IH. intros y Hy. apply H. now right.
Qed.

Lemma keys_of_tasks_pattern (pattern : string) (st : State) :
  written_by service_keyPrefix (server st) ->
  issue (CallDeletePattern pattern (Some "tasks")) st = (None, sent (server st) st).
Proof.
  intros Hw. cbn [TasksCache.issue]. unfold redis_keys.
  destruct (backend_fails (commands st)); [reflexivity |].
  rewrite filter_none; [reflexivity |].
  intros k Hin. destruct (live (server st) k) eqn:Hl; [| reflexivity].
  apply tasks_pattern_misses_prefixed, Hw.
  unfold live in Hl. destruct (keyspace (server st) !! k); [eauto | discriminate].
Qed.

Lemma cachePromises_patterns (uid tid : option string) :
  patterns_in_tasks (cachePromises uid tid).
Proof.
  intros pattern ns. unfold cachePromises.
  destruct (truthy tid), (truthy uid); cbn [app In];
    intros H; repeat (destruct H as [H | H]; [congruence |]); contradiction.
Qed.

Lemma issue_all_named_only (cs : list CacheCall) :
  forall st,
    patterns_in_tasks cs ->
    written_by service_keyPrefix (server st) ->
    fst (issue_all cs st) = [] /\
    forall k,
      (forall key ns, In (CallDelete key ns) cs ->
                      k <> service_keyPrefix +:+ buildKey key ns) ->
      keyspace (server (snd (issue_all cs st))) !! k = keyspace (server st) !! k.
Proof.
  induction cs as [| c cs IH]; intros st Hp Hw; [split; [reflexivity | reflexivity] |].
  cbn [TasksCache.issue_all].
  assert (Hp' : patterns_in_tasks cs)
    by (intros p ns Hin; apply (Hp p ns); now right).
  pose proof (issue_shrinks service_keyPrefix backend_fails c st) as Hs.
  destruct c as [key ns | pattern ns].
  - cbn [TasksCache.issue] in *.
    set (st1 := snd (Cache.delete service_keyPrefix backend_fails key ns st)) in *.
    destruct (IH st1 Hp' (written_by_shrinks _ _ Hs Hw)) as [Hnil Hk].
    destruct (issue_all cs st1) as [more st2]. cbn [fst snd] in *.
    split; [exact Hnil |]. intros k Hne. rewrite Hk by (intros; apply Hne; now right).
    subst st1. unfold Cache.delete, redis_del.
    destruct (backend_fails (commands st)); [reflexivity |]. cbn.
    apply lookup_delete_ne. intros E. now apply (Hne key ns (or_introl eq_refl)).
  - rewrite (Hp pattern ns (or_introl eq_refl)) in *.
    rewrite (keys_of_tasks_pattern pattern st Hw) in *. cbn [snd] in Hs.
    destruct (IH (sent (server st) st) Hp' Hw) as [Hnil Hk].
    destruct (issue_all cs (sent (server st) st)) as [more st2]. cbn [fst snd] in *.
    split; [exact Hnil |]. intros k Hne. apply Hk. intros; apply Hne; now right.
Qed.

(** On the service's client [clearTaskCaches] takes away named keys
    only. *)
Lemma unnamed_keys_stay
    (specificUserId specificTaskId : option string) (st : State) (k : string) :
  written_by service_keyPrefix (server st) ->
  (forall key ns, In (CallDelete key ns) (cachePromises specificUserId specificTaskId) ->
                  k <> service_keyPrefix +:+ buildKey key ns) ->
  keyspace (server (clearTaskCaches specificUserId specificTaskId st)) !! k
    = keyspace (server st) !! k.
Proof.
  intros Hw Hne. unfold TasksCache.clearTaskCaches.
  destruct (issue_all_named_only (cachePromises specificUserId specificTaskId) st
              (cachePromises_patterns _ _) Hw) as [Hnil Hk].
  destruct (issue_all _ st) as [pending st1]. cbn [fst snd] in *.
  subst pending. cbn [TasksCache.settle]. now apply Hk.
Qed.

(** X20: on the service's client, whose keys all carry the prefix,
    [clearTaskCaches] removes no entry but the ones it deletes by name:
    its patterns are sent without the prefix and match nothing, so every
    other entry, the cached lists among them, is as live as before. *)
Theorem clearTaskCaches_leaves_unnamed_entries
    (specificUserId specificTaskId : option string) (st : State) (k : string) :
  written_by service_keyPrefix (server st) ->
  (forall key ns, In (CallDelete key ns) (cachePromises specificUserId specificTaskId) ->
                  k <> service_keyPrefix +:+ buildKey key ns) ->
  live (server (clearTaskCaches specificUserId specificTaskId st)) k = live (server st) k.
Proof.
  intros Hw Hne.
  pose proof (clearTaskCaches_shrinks service_keyPrefix backend_fails
                specificUserId specificTaskId st) as [Ht _].
  unfold live. rewrite Ht.
  now rewrite (unnamed_keys_stay specificUserId specificTaskId st k Hw Hne).
Qed.

(** A text put before two texts keeps them apart. *)
Lemma app_differs (a b c : string) : b <> c -> a +:+ b <> a +:+ c.
Proof. intros Hne E. apply Hne. exact (String.app_inj a _ _ E). Qed.

(** X21: the invalidation that follows the removal of a task,
    [clearTaskCaches(undefined, id)], leaves on the service's client the
    entry under which [findOne] cached the task for a user who is no
    administrator: it is not among the entries deleted by name, and the
    pattern meant for it matches nothing. A live entry stays live until
    it expires. *)
Theorem clearTaskCaches_after_remove_keeps_user_entry
    (id : string) (userId userRole : option string) (st : State) :
  written_by service_keyPrefix (server st) ->
  is_admin userRole = false ->
  let k := service_keyPrefix +:+ buildKey (findOne_cacheKey id userId userRole) (Some "tasks") in
  live (server (clearTaskCaches None (Some id) st)) k = live (server st) k.
Proof.
  intros Hw Hrole k.
  pose proof (clearTaskCaches_shrinks service_keyPrefix backend_fails None (Some id) st)
    as [Ht _].
  unfold live. rewrite Ht.
  rewrite (unnamed_keys_stay None (Some id) st k Hw); [reflexivity |].
  intros key ns Hin. subst k. unfold findOne_cacheKey. rewrite Hrole.
  unfold cachePromises in Hin. cbn [truthy] in Hin.
  destruct (negb (String.eqb id EmptyString)); cbn [app In template] in Hin;
    repeat (destruct Hin as [Hin | Hin]; [try discriminate Hin |]); try contradiction;
    injection Hin as <- <-;
    apply app_differs; unfold buildKey; cbn [truthy String.eqb negb];
    apply (app_differs "tasks"), (app_differs ":").
  - apply (app_differs "task:"), (app_differs id). discriminate.
  - discriminate.
  - discriminate.
Qed.

End ServiceClient.

(** Every key of the sample cache carries the prefix of the service. *)
Lemma cache_with_task_written : written_by service_keyPrefix (server cache_with_task).
Proof.
  intros k Hk.
  destruct (decide (k = "cache:tasks:task:t-1:admin")) as [-> | H1]; [reflexivity |].
  destruct (decide (k = "cache:tasks:task:t-1:user:u-1")) as [-> | H2]; [reflexivity |].
  destruct (decide (k = "cache:tasks:list:all")) as [-> | H3]; [reflexivity |].
  exfalso. revert Hk.
  change (keyspace (server cache_with_task))
    with (<["cache:tasks:task:t-1:admin" := (JSON_stringify cached_task, 300%Z)]>
            (<["cache:tasks:task:t-1:user:u-1" := (JSON_stringify cached_task, 300%Z)]>
               (<["cache:tasks:list:all" := (JSON_stringify task_page, 180%Z)]>
                  (∅ : gmap string (string * Z))))).
  rewrite !lookup_insert_ne by congruence. rewrite lookup_empty.
  intros [? Hk]. discriminate Hk.
Qed.

(** X20 (witness): the cached task list outlives the invalidation that
    follows an update of the task "t-1". *)
Lemma clearTaskCaches_leaves_unnamed_entries_witness :
  live (server (clearTaskCaches service_keyPrefix never_fails (Some "u-1") (Some "t-1")
                  cache_with_task)) "cache:tasks:list:all"
    = Some (JSON_stringify task_page).
Proof.
  assert (Hw : written_by service_keyPrefix (server cache_with_task))
    by exact cache_with_task_written.
  assert (Hne : forall key ns,
             In (CallDelete key ns) (cachePromises (Some "u-1") (Some "t-1")) ->
             "cache:tasks:list:all" <> service_keyPrefix +:+ buildKey key ns).
  { intros key ns Hin. vm_compute in Hin.
    repeat (destruct Hin as [Hin | Hin];
            [first [discriminate Hin | injection Hin as <- <-; discriminate] |]).
    destruct Hin. }
  rewrite (clearTaskCaches_leaves_unnamed_entries never_fails (Some "u-1") (Some "t-1")
             cache_with_task "cache:tasks:list:all" Hw Hne).
  vm_compute. reflexivity.
Defined.

(** X21 (witness): the owner's entry of the task "t-1" outlives the
    invalidation that follows the removal of the task. *)
Lemma clearTaskCaches_after_remove_keeps_user_entry_witness :
  live (server (clearTaskCaches service_keyPrefix never_fails None (Some "t-1")
                  cache_with_task)) "cache:tasks:task:t-1:user:u-1"
    = Some (JSON_stringify cached_task).
Proof.
  assert (Hw : written_by service_keyPrefix (server cache_with_task))
    by exact cache_with_task_written.
  etransitivity;
    [exact (clearTaskCaches_after_remove_keeps_user_entry never_fails "t-1" (Some "u-1")
              (Some "user") cache_with_task Hw eq_refl)
    | vm_compute; reflexivity].
Defined.

End TasksCacheProps.

(** ** The pages of the task list *)

Module TasksListProps.

Import TasksList.

(** The ceiling of the quotient is the least number of pages of [b] rows
    that hold [a] rows. *)
Lemma Math_ceil_div_bounds (a b : Z) :
  (0 < b)%Z ->
  ((Math_ceil_div a b - 1) * b < a <= Math_ceil_div a b * b)%Z.
Proof.
  intros Hb. unfold Math_ceil_div, Qround.Qceiling, Qround.Qfloor.
  destruct b as [| p | p]; try lia.
  cbn. rewrite Z.mul_1_r, Pos.mul_1_l.
  pose proof (Z.div_mod (- a) (Z.pos p) ltac:(lia)) as Hdm.
  pose proof (Z.mod_pos_bound (- a) (Z.pos p) ltac:(lia)) as Hm.
  set (q := (- a / Z.pos p)%Z) in *. set (r := (- a mod Z.pos p)%Z) in *.
  nia.
Qed.

(** X22: for a positive page size, [totalPages] is the least number of
    pages that hold all matching rows, [hasNext] is set exactly when rows
    remain after the rows of this page, and [hasPrev] exactly when the
    query skipped rows. *)
Theorem page_info_marks_the_remaining_rows (total page limit : Z) :
  (0 < limit)%Z ->
  let info := page_info total page limit in
  ((totalPages info - 1) * limit < total <= totalPages info * limit)%Z /\
  (hasNext info = true <-> (offset page limit + limit < total)%Z) /\
  (hasPrev info = true <-> (0 < offset page limit)%Z).
Proof.
  intros Hl info. subst info. cbn [page_info totalPages hasNext hasPrev].
  pose proof (Math_ceil_div_bounds total limit Hl) as Hc.
  unfold offset. split; [exact Hc |]. split.
  - rewrite Z.ltb_lt. split; intros H; nia.
  - rewrite Z.ltb_lt. split; intros H; nia.
Qed.

(** X22 (witness): the second page of 25 rows in pages of 10. *)
Lemma page_info_marks_the_remaining_rows_witness :
  ((totalPages (page_info 25 2 10) - 1) * 10 < 25 <= totalPages (page_info 25 2 10) * 10)%Z /\
  (hasNext (page_info 25 2 10) = true <-> (offset 2 10 + 10 < 25)%Z) /\
  (hasPrev (page_info 25 2 10) = true <-> (0 < offset 2 10)%Z).
Proof.
  exact (page_info_marks_the_remaining_rows 25 2 10 eq_refl).
Defined.

End TasksListProps.
